(** * android-eBPF profiler: trace sessions and trace analysis

    A shallow embedding of the Python backend
    ([backend/trace_data_manager.py], [analyze_trace.py],
    [backend/bpftrace_orchestrator.py], [backend/device_manager.py]) and
    the properties of it that the design document states, followed by
    further properties of the code.

    Conventions of the embedding:
    - a decoded event is a Python dict with string keys: [gmap string value];
    - dicts built by the code with [defaultdict] are insertion ordered and
      keyed by arbitrary hashable scalars compared with Python's [==]; they
      are association lists ([pydict]) so that order, and the key object
      that was inserted first, are kept;
    - numbers are Python ints ([Z]); floats are outside the embedding;
    - the builtins of text whose result depends on the characters of
      Unicode ([str.strip], [str.split]) and the decoder [json.loads] are
      parameters of the functions that call them, so that what is proved
      holds whatever the text; [Py.strip] and [FlatJson] are instances for
      ASCII text, used to run the functions on concrete lines;
    - an exception that a function lets escape, or catches to give up, is an
      explicit result ([option], or a dedicated outcome type);
    - the world a function talks to (file system, clock, adb) is passed in
      as data, and what the function does to it is returned as data. *)

From Stdlib Require Import ZArith QArith Ascii.
From stdpp Require Import gmap strings list sorting pretty.

Local Open Scope Z_scope.

(** ** Python values and the builtins the code relies on *)

Module Py.

(** The scalars [json.loads] puts in a flat object. *)
Inductive value : Type :=
  | VNone
  | VBool (b : bool)
  | VInt (n : Z)
  | VStr (s : string).

#[global] Instance value_eq_dec : EqDecision value.
Proof. solve_decision. Defined.

#[global] Instance value_inhabited : Inhabited value := populate VNone.

(** [bool] is a subclass of [int]: the number a value stands for, if any. *)
Definition as_int (v : value) : option Z :=
  match v with
  | VBool b => Some (Z.b2z b)
  | VInt n => Some n
  | _ => None
  end.

(** Python's [==] on scalars ([True == 1], [None] only equals [None], a
    string never equals a number). *)
Definition py_eqb (a b : value) : bool :=
  match a, b with
  | VNone, VNone => true
  | VStr s, VStr t => bool_decide (s = t)
  | VStr _, _ | _, VStr _ | VNone, _ | _, VNone => false
  | _, _ => bool_decide (as_int a = as_int b)
  end.

Definition is_none (v : value) : bool :=
  match v with VNone => true | _ => false end.

(** [str(v)]. *)
Definition str (v : value) : string :=
  match v with
  | VNone => "None"
  | VBool true => "True"
  | VBool false => "False"
  | VInt n => pretty n
  | VStr s => s
  end.

(** [str.isspace] on ASCII characters (tab, LF, VT, FF, CR, FS, GS, RS, US
    and space). Python also takes the white space of Unicode beyond ASCII
    for white space; [isspace], [strip] and [split_ws] below are what
    [str.isspace], [str.strip] and [str.split] are on ASCII text. *)
Definition isspace (c : ascii) : bool :=
  let n := N_of_ascii c in
  ((9 <=? n) && (n <=? 13) || (28 <=? n) && (n <=? 32))%N.

Fixpoint lstrip (s : string) : string :=
  match s with
  | String c s' => if isspace c then lstrip s' else s
  | EmptyString => EmptyString
  end.

Definition rstrip (s : string) : string := String.rev (lstrip (String.rev s)).

(** [s.strip()], for ASCII text. *)
Definition strip (s : string) : string := rstrip (lstrip s).

(** [sub in s] for two strings. *)
Fixpoint contains (sub s : string) : bool :=
  String.prefix sub s ||
  match s with
  | String _ s' => contains sub s'
  | EmptyString => false
  end.

(** [sub in v]: membership in a string; any other right operand of the
    model is not iterable ([TypeError], here [None]). *)
Definition str_in (sub : string) (v : value) : option bool :=
  match v with
  | VStr s => Some (contains sub s)
  | _ => None
  end.

(** A decoded event: a dict with string keys. *)
Abbreviation Event := (gmap string value).

(** [e.get(k)] and [e.get(k, d)]. *)
Definition get (e : Event) (k : string) : value := default VNone (e !! k).
Definition get_or (e : Event) (k : string) (d : value) : value := default d (e !! k).

(** [k in e]. *)
Definition has_key (e : Event) (k : string) : bool := bool_decide (is_Some (e !! k)).

(** *** Insertion-ordered dicts keyed by scalars *)

Definition pydict (V : Type) : Type := list (value * V).

Section pydict.
Context {V : Type}.

Fixpoint lookup_key (k : value) (d : pydict V) : option V :=
  match d with
  | [] => None
  | (k', v) :: d' => if py_eqb k' k then Some v else lookup_key k d'
  end.

(** [d[k] = f(d[k])] on a [defaultdict] whose factory gives [dflt]: an
    existing entry keeps its position and its key object, a new one goes
    last. *)
Fixpoint update_default (dflt : V) (f : V → V) (k : value) (d : pydict V) : pydict V :=
  match d with
  | [] => [(k, f dflt)]
  | (k', v) :: d' =>
      if py_eqb k' k then (k', f v) :: d'
      else (k', v) :: update_default dflt f k d'
  end.

Definition keys (d : pydict V) : list value := d.*1.
Definition values (d : pydict V) : list V := d.*2.
End pydict.

(** [set(vs)] as the list of its distinct members (up to [==]), first
    occurrences kept; only its length is used by the code. *)
Definition py_set (vs : list value) : list value :=
  foldl (λ acc v, if existsb (λ w, py_eqb w v) acc then acc else acc ++ [v]) [] vs.

(** *** [sorted] *)

(** Python's sort is stable and only asks [<]: insertion of each element,
    last one first, in front of the first element that is not below it. *)
Section sorted.
Context {A : Type} (lt : A → A → bool).

Fixpoint insert_sorted (x : A) (l : list A) : list A :=
  match l with
  | [] => [x]
  | y :: l' => if lt y x then y :: insert_sorted x l' else x :: l
  end.

Definition sorted_with (l : list A) : list A := foldr insert_sorted [] l.
End sorted.

Definition is_num (v : value) : bool := bool_decide (is_Some (as_int v)).
Definition is_str (v : value) : bool := match v with VStr _ => true | _ => false end.

Definition num_of (v : value) : Z := default 0 (as_int v).
Definition str_of (v : value) : string := match v with VStr s => s | _ => "" end.

Definition num_lt (a b : value) : bool := num_of a <? num_of b.
Definition str_lt (a b : value) : bool := String.ltb (str_of a) (str_of b).

(** [sorted(l)] on a list of scalars. Numbers (ints and bools) compare with
    one another and strings with one another; every other pair, [None] with
    [None] included, makes [<] raise [TypeError]. A sort has to compare
    across any split of a list of two or more elements, so it raises exactly
    when such a list is neither all numbers nor all strings. *)
Definition py_sorted (l : list value) : option (list value) :=
  if bool_decide (length l ≤ 1)%nat then Some l
  else if forallb is_num l then Some (sorted_with num_lt l)
  else if forallb is_str l then Some (sorted_with str_lt l)
  else None.

(** [a - b]: defined on numbers only. *)
Definition py_sub (a b : value) : option Z :=
  match as_int a, as_int b with
  | Some x, Some y => Some (x - y)
  | _, _ => None
  end.

End Py.

Import Py.

(** ** The file system as the parsers see it *)

(** How iterating over a file stops: at its end, or on an exception
    ([FileNotFoundError] from [open], or any other error while opening or
    reading). *)
Inductive read_end : Type := EndOfFile | FileNotFound | ReadError.

(** What [with open(path) as f: for line in f] yields: the lines delivered
    (each with its line terminator) and how the iteration stopped. *)
Record file_read : Type := FileRead {
  fr_lines : list string;
  fr_end : read_end
}.

(** ** The decoder *)

(** What [json.loads(text)] does: it returns a value, it raises
    [json.JSONDecodeError] (the text is not JSON), or it raises something
    else ([RecursionError] on text nested too deep, [ValueError] on an
    integer literal with more digits than the interpreter converts). *)
Inductive loads_result (A : Type) : Type :=
  | Returned (a : A)
  | JSONDecodeError
  | OtherError.
Arguments Returned {A} a.
Arguments JSONDecodeError {A}.
Arguments OtherError {A}.

(** A value [json.loads] returns: an object, which is an event, or a value
    of another type (a number, a string, a list, [null], ...), of which
    only the name of the type matters to the code. *)
Inductive json_value : Type :=
  | JObject (e : Event)
  | JOther (type_name : string).

(** ** backend/trace_data_manager.py *)

Module TraceDataManager.

(** What the module's logger receives. *)
Inductive log_record : Type :=
  | LogWarning (line : string)
  | LogInfo (n : nat)
  | LogError.


Section parse.
Context {A : Type}.
(** [str.strip] and [json.loads]. *)
Variable strip : string → string.
Variable json_loads : string → loads_result A.

(** One turn of the loop of [parse_json_trace] over the events collected
    and the log written so far; [None] when [json.loads] raises an
    exception that the handler inside the loop does not catch. *)
Definition parse_line (st : list A * list log_record) (line : string)
  : option (list A * list log_record) :=
  let line := strip line in
  if bool_decide (line = "") then Some st
  else match json_loads line with
       | Returned event => Some (st.1 ++ [event], st.2)
       | JSONDecodeError => Some (st.1, st.2 ++ [LogWarning line])
       | OtherError => None
       end.

(** The loop over the lines: the state it ends in, and whether it got
    through all the lines ([false]: an exception left it). *)
Fixpoint parse_lines (st : list A * list log_record) (lines : list string)
  : list A * list log_record * bool :=
  match lines with
  | [] => (st, true)
  | line :: lines' =>
      match parse_line st line with
      | Some st' => parse_lines st' lines'
      | None => (st, false)
      end
  end.

(** [parse_json_trace(trace_file)], given what reading [trace_file]
    yields: the list it returns, and the log it leaves behind. Any
    exception, from reading or from the decoder, ends in the outer
    handler. *)
Definition parse_json_trace_run (f : file_read) : list A * list log_record :=
  let '(events, log, finished) := parse_lines ([], []) (fr_lines f) in
  match finished, fr_end f with
  | true, EndOfFile => (events, log ++ [LogInfo (length events)])
  | _, _ => ([], log ++ [LogError])
  end.

Definition parse_json_trace (f : file_read) : list A :=
  (parse_json_trace_run f).1.

Definition parse_json_trace_log (f : file_read) : list log_record :=
  (parse_json_trace_run f).2.
End parse.

(** [[e for e in l if p(e)]] where [p] may raise. *)
Fixpoint filter_raising {A} (p : A → option bool) (l : list A) : option (list A) :=
  match l with
  | [] => Some []
  | x :: l' =>
      match p x with
      | None => None
      | Some b =>
          match filter_raising p l' with
          | None => None
          | Some r => Some (if b then x :: r else r)
          end
      end
  end.

(** Truth value of an [Optional[str]] argument. *)
Definition truthy (s : option string) : option string :=
  match s with
  | Some s => if bool_decide (s = "") then None else Some s
  | None => None
  end.

Definition filter_events (events : list Event)
    (event_type : option string) (pid : option Z) (comm : option string)
    : option (list Event) :=
  let filtered := events in
  let filtered :=
    match truthy event_type with
    | Some t => List.filter (λ e, py_eqb (get e "event") (VStr t)) filtered
    | None => filtered
    end in
  let filtered :=
    match pid with
    | Some p => List.filter (λ e, py_eqb (get e "pid") (VInt p)) filtered
    | None => filtered
    end in
  match truthy comm with
  | Some c => filter_raising (λ e, str_in c (get_or e "comm" (VStr ""))) filtered
  | None => Some filtered
  end.

Definition aggregate_by_pid (events : list Event) : pydict (list Event) :=
  foldl (λ aggregated event,
           let pid := get event "pid" in
           if is_none pid then aggregated
           else update_default [] (λ l, l ++ [event]) pid aggregated)
        [] events.

Definition aggregate_by_comm (events : list Event) : pydict (list Event) :=
  foldl (λ aggregated event,
           let comm := get_or event "comm" (VStr "unknown") in
           update_default [] (λ l, l ++ [event]) comm aggregated)
        [] events.

Definition count_events (events : list Event) : pydict nat :=
  foldl (λ counts event,
           let event_type := get_or event "event" (VStr "unknown") in
           update_default 0%nat S event_type counts)
        [] events.

(** [sorted(l, key=lambda x: x['count'], reverse=True)]: stable, largest
    count first. *)
Definition sorted_by_count_desc (l : list (value * nat)) : list (value * nat) :=
  sorted_with (λ a b, (b.2 <? a.2)%nat) l.

Definition _get_top_processes (events : list Event) (top_n : nat) : list (value * nat) :=
  let by_comm := aggregate_by_comm events in
  let top := sorted_by_count_desc ((λ '(comm, evts), (comm, length evts)) <$> by_comm) in
  take top_n top.

Record summary : Type := Summary {
  s_file : string;
  s_timestamp : string;
  total_events : nat;
  event_types : pydict nat;
  unique_pids : nat;
  unique_comms : nat;
  events_by_pid : gmap string nat;
  top_processes : list (value * nat)
}.

(** What [summarize_trace] returns: the summary, or the dict with the
    text of the exception under [error]. *)
Inductive summary_result : Type :=
  | Summarized (s : summary)
  | SummaryFailed (error : string).

(** The parsed values as events, or the text of the [AttributeError] that
    [event.get] raises on the first value that is no dict. *)
Fixpoint events_or_error (values : list json_value) : list Event + string :=
  match values with
  | [] => inl []
  | JObject e :: values' =>
      match events_or_error values' with
      | inl events => inl (e :: events)
      | inr error => inr error
      end
  | JOther type_name :: _ =>
      inr ("'" +:+ type_name +:+ "' object has no attribute 'get'")
  end.

(** [summarize_trace(trace_file)]; [now] is [datetime.now().isoformat()].
    [count_events] is the first to look into the parsed values and raises
    on one that is no dict; none of the calls raises on dict events of
    scalars. *)
Definition summarize_trace (strip : string → string)
    (json_loads : string → loads_result json_value)
    (read : string → file_read) (now : string) (trace_file : string) : summary_result :=
  match events_or_error (parse_json_trace strip json_loads (read trace_file)) with
  | inr error => SummaryFailed error
  | inl events =>
      Summarized
        {| s_file := trace_file;
           s_timestamp := now;
           total_events := length events;
           event_types := count_events events;
           unique_pids :=
             length (py_set ((λ e, get e "pid") <$> List.filter (λ e, has_key e "pid") events));
           unique_comms :=
             length (py_set ((λ e, get e "comm") <$> List.filter (λ e, has_key e "comm") events));
           events_by_pid :=
             foldl (λ m '(pid, evts), <[str pid := length evts]> m) ∅ (aggregate_by_pid events);
           top_processes := _get_top_processes events 10 |}
  end.

(** An entry of [by_pid] in the statistics. *)
Record pid_stats : Type := PidStats {
  ps_count : nat;
  ps_first_comm : value
}.

Record statistics : Type := Statistics {
  st_total_events : nat;
  st_event_types : pydict nat;
  st_by_pid : gmap string pid_stats;
  st_by_comm : pydict nat
}.

(** One entry of the dict comprehension that builds [by_pid]; [None] is the
    [IndexError] of [evts[0]] on an empty group. A key that comes again
    replaces the entry. *)
Definition by_pid_entry (acc : option (gmap string pid_stats))
    (item : value * list Event) : option (gmap string pid_stats) :=
  m ← acc;
  first ← head item.2;
  Some (<[str item.1 := {| ps_count := length item.2;
                           ps_first_comm := get_or first "comm" (VStr "unknown") |}]> m).

(** [get_trace_statistics(trace_file)]; [None] is an exception, which the
    function does not catch: the [AttributeError] of a parsed value that
    is no dict, or the [IndexError] of an empty group. *)
Definition get_trace_statistics (strip : string → string)
    (json_loads : string → loads_result json_value)
    (read : string → file_read) (trace_file : string) : option statistics :=
  match events_or_error (parse_json_trace strip json_loads (read trace_file)) with
  | inr _ => None
  | inl events =>
      by_pid ← foldl by_pid_entry (Some ∅) (aggregate_by_pid events);
      Some {| st_total_events := length events;
              st_event_types := count_events events;
              st_by_pid := by_pid;
              st_by_comm :=
                (λ '(comm, evts), (comm, length evts)) <$> aggregate_by_comm events |}
  end.

End TraceDataManager.

(** ** analyze_trace.py *)

Module TraceAnalyzer.

(** How [_load_events] ends: with the events, with [sys.exit(1)] (file not
    found), or with an exception it does not catch. *)
Inductive load_outcome (A : Type) : Type :=
  | Loaded (events : list A)
  | Exit1
  | LoadRaised.
Arguments Loaded {A} events.
Arguments Exit1 {A}.
Arguments LoadRaised {A}.

Section load.
Context {A : Type}.
(** [str.strip] and [json.loads]. *)
Variable strip : string → string.
Variable json_loads : string → loads_result A.

(** One turn of the loop over [enumerate(f, 1)]: the events collected and
    the numbers of the lines reported as invalid JSON so far; [None] when
    [json.loads] raises an exception that is not caught. *)
Definition load_line (st : list A * list nat) (numbered : nat * string)
  : option (list A * list nat) :=
  let '(line_num, line) := numbered in
  if bool_decide (strip line = "") then Some st
  else match json_loads line with
       | Returned event => Some (st.1 ++ [event], st.2)
       | JSONDecodeError => Some (st.1, st.2 ++ [line_num])
       | OtherError => None
       end.

Fixpoint load_lines (st : list A * list nat) (numbered : list (nat * string))
  : list A * list nat * bool :=
  match numbered with
  | [] => (st, true)
  | line :: lines' =>
      match load_line st line with
      | Some st' => load_lines st' lines'
      | None => (st, false)
      end
  end.

Definition enumerate_from_1 (lines : list string) : list (nat * string) :=
  zip (seq 1 (length lines)) lines.

(** [_load_events()]: how it ends, and the line numbers it printed. An
    exception of the decoder, like an error of reading, escapes. *)
Definition _load_events_run (f : file_read) : load_outcome A * list nat :=
  let '(events, invalid, finished) :=
    load_lines ([], []) (enumerate_from_1 (fr_lines f)) in
  match finished, fr_end f with
  | true, EndOfFile => (Loaded events, invalid)
  | true, FileNotFound => (Exit1, invalid)
  | _, _ => (LoadRaised, invalid)
  end.

Definition _load_events (f : file_read) : load_outcome A := (_load_events_run f).1.
Definition _load_events_printed (f : file_read) : list nat := (_load_events_run f).2.
End load.

Definition filter_by_event (events : list Event) (event_type : value) : list Event :=
  List.filter (λ e, py_eqb (get e "event") event_type) events.

Definition filter_by_pid (events : list Event) (pid : value) : list Event :=
  List.filter (λ e, py_eqb (get e "pid") pid) events.

Definition filter_by_comm (events : list Event) (comm : string) : option (list Event) :=
  TraceDataManager.filter_raising (λ e, str_in comm (get_or e "comm" (VStr ""))) events.

(** *** export_csv *)

(** What [csv.DictWriter] is handed: the header and one record per event,
    each field already as the text the writer emits for it ([None] is
    written as the empty field, anything else through [str]). Quoting and
    line ends are the csv module's and are a function of these fields. *)
Record csv_table : Type := CsvTable {
  csv_header : list string;
  csv_rows : list (list string)
}.

Inductive export_outcome : Type :=
  | NoEventsToExport
  | ExportFailed
  | Exported (t : csv_table).

Definition csv_field (v : value) : string :=
  match v with VNone => "" | _ => str v end.

(** [all_keys], after the loop of [update]s. *)
Definition all_keys (events : list Event) : gset string :=
  foldl (λ acc event, acc ∪ dom event) ∅ events.

(** [row.get(key, restval)] for each field name, [restval] being the empty
    string. *)
Definition dict_to_row (keys : list string) (event : Event) : list string :=
  (λ k, csv_field (get_or event k (VStr ""))) <$> keys.

Section export.
(** [list(s)] for a set of strings: its members in the set's iteration
    order, which Python does not fix (string hashing is salted per
    process). *)
Variable list_of_set : gset string → list string.
(** Whether [open(output_file, 'w')] and the writes succeed. *)
Variable writable : bool.

Definition export_csv (events : list Event) : export_outcome :=
  if bool_decide (events = []) then NoEventsToExport
  else
    let keys := sorted_with String.ltb (list_of_set (all_keys events)) in
    if writable
    then Exported {| csv_header := keys; csv_rows := dict_to_row keys <$> events |}
    else ExportFailed.
End export.

(** *** event_timeline *)

Record interval_stats : Type := IntervalStats {
  avg_interval : Q;
  min_interval : Z;
  max_interval : Z
}.

(** The block written for one event type. *)
Record type_report : Type := TypeReport {
  r_type : value;
  r_count : nat;
  r_first : value;
  r_last : value;
  r_range : Z;
  r_intervals : option interval_stats
}.

Inductive timeline_outcome : Type :=
  | NoEventsToAnalyze
  | TimelineFailed
  | TimelineSaved (report : list type_report).

(** [timeline], after the grouping loop. *)
Definition group_timestamps (events : list Event) : pydict (list value) :=
  foldl (λ timeline event,
           let event_type := get_or event "event" (VStr "unknown") in
           let timestamp := get_or event "timestamp" (VInt 0) in
           update_default [] (λ l, l ++ [timestamp]) event_type timeline)
        [] events.

(** [[timestamps[i+1] - timestamps[i] for i in range(len(timestamps)-1)]]. *)
Fixpoint adjacent_differences (timestamps : list value) : option (list Z) :=
  match timestamps with
  | a :: (b :: _) as rest =>
      d ← py_sub b a; ds ← adjacent_differences rest; Some (d :: ds)
  | _ => Some []
  end.

(** [statistics.mean], [min], [max]: each raises on an empty list. *)
Definition mean (l : list Z) : option Q :=
  match l with
  | [] => None
  | _ => Some (Qmake (foldr Z.add 0 l) (Pos.of_nat (length l)))
  end.

Definition py_min (l : list Z) : option Z :=
  match l with [] => None | x :: l' => Some (foldl Z.min x l') end.

Definition py_max (l : list Z) : option Z :=
  match l with [] => None | x :: l' => Some (foldl Z.max x l') end.

(** The three statistics are written with [:.2f], which converts the
    number, an int or an exact quotient of ints, to a float: [float(x)]
    raises [OverflowError] when [x] rounds to [2^1024] or beyond, that is
    from [2^1024 - 2^970] on. *)
Definition float_limit : Z := 2 ^ 1024 - 2 ^ 970.

Definition fits_float (x : Q) : bool :=
  Z.abs (Qnum x) <? float_limit * Z.pos (Qden x).

(** The body of the loop over the sorted event types; [None] is an
    exception raised in it. The statistics are kept as the exact numbers
    handed to the formatter, not as the two-decimal text written. *)
Definition report_type (event_type : value) (recorded : list value) : option type_report :=
  timestamps ← py_sorted recorded;
  first ← head timestamps;
  last ← last timestamps;
  range ← py_sub last first;
  intervals ←
    (if bool_decide (1 < length timestamps)%nat
     then ds ← adjacent_differences timestamps;
          avg ← mean ds; lo ← py_min ds; hi ← py_max ds;
          if fits_float avg && fits_float (inject_Z lo) && fits_float (inject_Z hi)
          then Some (Some {| avg_interval := avg; min_interval := lo; max_interval := hi |})
          else None
     else Some None);
  Some {| r_type := event_type; r_count := length timestamps;
          r_first := first; r_last := last; r_range := range;
          r_intervals := intervals |}.

(** [event_timeline(output_file)]: every exception raised after the file is
    opened is caught and ends the report ([TimelineFailed]; what had been
    written by then stays in the file and is not modelled). *)
Definition event_timeline (writable : bool) (events : list Event) : timeline_outcome :=
  if bool_decide (events = []) then NoEventsToAnalyze
  else
    let timeline := group_timestamps events in
    if writable then
      match
        types ← py_sorted (keys timeline);
        mapM (λ event_type,
                report_type event_type (default [] (lookup_key event_type timeline)))
             types
      with
      | Some report => TimelineSaved report
      | None => TimelineFailed
      end
    else TimelineFailed.

(** *** process_summary *)

(** An entry of [process_data]. *)
Record process_entry : Type := ProcessEntry {
  pe_pid : value;
  pe_event_count : nat;
  pe_event_types : pydict nat;
  pe_total_time : Z
}.

(** What the [defaultdict] makes for a process seen for the first time. *)
Definition new_process : process_entry :=
  {| pe_pid := VNone; pe_event_count := 0; pe_event_types := []; pe_total_time := 0 |}.

(** The three assignments of the loop body on the entry of the event's
    process. *)
Definition record_event (event : Event) (p : process_entry) : process_entry :=
  {| pe_pid := get event "pid";
     pe_event_count := S (pe_event_count p);
     pe_event_types := update_default 0%nat S (get event "event") (pe_event_types p);
     pe_total_time := pe_total_time p |}.

(** [process_data], after the loop. *)
Definition collect_processes (events : list Event) : pydict process_entry :=
  foldl (λ process_data event,
           let comm := get_or event "comm" (VStr "unknown") in
           update_default new_process (record_event event) comm process_data)
        [] events.

(** [counter.most_common(n)]: the [n] largest counts, largest first, equal
    counts in the order the keys were first counted. *)
Definition most_common (n : nat) (counter : pydict nat) : list (value * nat) :=
  take n (sorted_with (λ a b, (b.2 <? a.2)%nat) counter).

(** The block written for one process. *)
Record process_block : Type := ProcessBlock {
  b_comm : value;
  b_pid : value;
  b_total_events : nat;
  b_event_types : list (value * nat)
}.

Inductive process_summary_outcome : Type :=
  | ProcessSummaryFailed
  | ProcessSummarySaved (blocks : list process_block).

(** [process_summary(output_file)]: the processes by decreasing number of
    events, each with its five most common event types. *)
Definition process_summary (writable : bool) (events : list Event)
    : process_summary_outcome :=
  let process_data := collect_processes events in
  let entry comm := default new_process (lookup_key comm process_data) in
  if writable then
    ProcessSummarySaved
      ((λ comm,
          let data := entry comm in
          {| b_comm := comm; b_pid := pe_pid data;
             b_total_events := pe_event_count data;
             b_event_types := most_common 5 (pe_event_types data) |})
         <$> sorted_with (λ a b, (pe_event_count (entry b) <? pe_event_count (entry a))%nat)
                         (keys process_data))
  else ProcessSummaryFailed.

End TraceAnalyzer.

(** ** backend/bpftrace_orchestrator.py *)

Module Orchestrator.

(** *** The device side *)

(** How the adb shell process ends once its standard output is exhausted:
    it exits within the timeout given to [process.wait], it does not
    ([subprocess.TimeoutExpired]), or starting or reading it raised some
    other exception [e] with [str(e) = msg]. *)
Inductive run_end : Type :=
  | Exited (returncode : Z)
  | TimeoutExpired
  | Raised (msg : string).

(** A remote run: the lines [readline] delivers before the run ends. *)
Record process : Type := Process {
  stdout_lines : list string;
  proc_end : run_end
}.

(** How [adb push] goes: exit status, or an exception. *)
Inductive push_end : Type :=
  | PushExited (returncode : Z)
  | PushRaised.

Definition _push_script_to_device (p : push_end) : bool :=
  match p with
  | PushExited rc => bool_decide (rc = 0)
  | PushRaised => false
  end.

Definition concat_lines (lines : list string) : string :=
  foldr String.app "" lines.

Definition timed_out_message : string := "Command timed out".

(** [_run_command_on_device]: the pair it returns and the calls it makes to
    [output_callback] (none when no callback is given). The lines are read,
    and passed to the callback, before the process is waited for. *)
Definition _run_command_on_device (p : process) (output_callback : bool)
    : (bool * string) * list string :=
  let output_lines := stdout_lines p in
  let called := if output_callback then output_lines else [] in
  match proc_end p with
  | TimeoutExpired => ((false, timed_out_message), called)
  | Raised msg => ((false, msg), called)
  | Exited rc => ((bool_decide (rc = 0), concat_lines output_lines), called)
  end.

(** *** Sessions *)

(** An entry of [active_traces]. *)
Record trace_meta : Type := TraceMeta {
  device_id : string;
  trace_name : string;
  output_file : string;
  status : string;
  start_time : string;
  duration : Z;
  end_time : option string;
  output_size : option nat
}.

Abbreviation store := (gmap string trace_meta).

Definition set_status (s : string) (m : trace_meta) : trace_meta :=
  {| device_id := device_id m; trace_name := trace_name m;
     output_file := output_file m; status := s; start_time := start_time m;
     duration := duration m; end_time := end_time m; output_size := output_size m |}.

Definition set_end_time (t : string) (m : trace_meta) : trace_meta :=
  {| device_id := device_id m; trace_name := trace_name m;
     output_file := output_file m; status := status m; start_time := start_time m;
     duration := duration m; end_time := Some t; output_size := output_size m |}.

Definition set_output_size (n : nat) (m : trace_meta) : trace_meta :=
  {| device_id := device_id m; trace_name := trace_name m;
     output_file := output_file m; status := status m; start_time := start_time m;
     duration := duration m; end_time := end_time m; output_size := Some n |}.

(** What a call does outside the process, in order. A [WriteFile] is a
    write carried through; a write that raises leaves no action, whatever
    [open] did to the file before the exception. *)
Inductive action : Type :=
  | AdbPush (device script remote : string)
  | AdbShell (device command : string) (timeout : Z)
  | WriteFile (path content : string).

Definition is_remote (a : action) : bool :=
  match a with AdbPush _ _ _ | AdbShell _ _ _ => true | WriteFile _ _ => false end.

(** The dict a call returns: the four-key failure dict, or the dict of a
    run that was carried through. *)
Inductive result : Type :=
  | ResultError (error trace_name device_id : string)
  | ResultDone (success : bool) (trace_id trace_name device_id output_file : string)
               (output_lines : nat) (status : string).

Definition result_success (r : result) : bool :=
  match r with
  | ResultError _ _ _ => false
  | ResultDone success _ _ _ _ _ _ => success
  end.

(** Everything outside the orchestrator that a call of [execute_bpftrace]
    depends on, as it is for that one call. The name of the output file is
    put together as [pathlib] does for an output directory in normal form
    and a file name without [/]; the output size is the number of
    characters of the output, one per character of ASCII text. *)
Record world : Type := World {
  output_dir : string;
  script_exists : bool;
  push : push_end;
  remote : process;
  (** [None] when writing the output file works, the text of the exception
      otherwise. *)
  write_error : option string;
  (** The successive readings of [datetime.now()], already formatted. *)
  now_file : string;
  now_id : string;
  now_start : string;
  now_end : string
}.

(** [os.path.basename]. *)
Fixpoint until_slash (s : string) : string :=
  match s with
  | String c s' => if Ascii.eqb c "/" then "" else String c (until_slash s')
  | EmptyString => ""
  end.

Definition basename (path : string) : string :=
  String.rev (until_slash (String.rev path)).

Fixpoint join (sep : string) (parts : list string) : string :=
  match parts with
  | [] => ""
  | [p] => p
  | p :: rest => p +:+ sep +:+ join sep rest
  end.

Fixpoint count_newlines (s : string) : nat :=
  match s with
  | String c s' => (if Ascii.eqb c "010" then 1 else 0) + count_newlines s'
  | EmptyString => 0
  end%nat.

(** A call: what it returns, the successive contents of [active_traces]
    it produces (one per assignment), and what it does outside. *)
Record outcome : Type := Outcome {
  returned : result;
  history : list store;
  actions : list action
}.

Definition final_store (before : store) (o : outcome) : store :=
  default before (last (history o)).

Definition execute_bpftrace (w : world) (active_traces : store)
    (device_id script_path trace_name : string) (duration : Z) (json_output : bool)
    : outcome :=
  if negb (script_exists w) then
    {| returned := ResultError ("Script not found: " +:+ script_path) trace_name device_id;
       history := []; actions := [] |}
  else
    let script_name := basename script_path in
    let remote_script := "/data/local/tmp/" +:+ script_name in
    let pushed := AdbPush device_id script_path remote_script in
    if negb (_push_script_to_device (push w)) then
      {| returned := ResultError "Failed to push script to device" trace_name device_id;
         history := []; actions := [pushed] |}
    else
      let output_file :=
        output_dir w +:+ "/" +:+ trace_name +:+ "_" +:+ device_id +:+ "_"
          +:+ now_file w +:+ ".json" in
      let cmd := ["bpftrace"] ++ (if json_output then ["-f"; "json"] else [])
                   ++ [remote_script] in
      let full_cmd := "timeout " +:+ pretty duration +:+ " " +:+ join " " cmd in
      let trace_id := device_id +:+ "_" +:+ trace_name +:+ "_" +:+ now_id w in
      let s1 := <[trace_id :=
                  {| device_id := device_id; trace_name := trace_name;
                     output_file := output_file; status := "running";
                     start_time := now_start w; duration := duration;
                     end_time := None; output_size := None |}]> active_traces in
      let ran := AdbShell device_id full_cmd (duration + 10) in
      let '(success, output) := (_run_command_on_device (remote w) false).1 in
      let wants_write := negb (bool_decide (output = "")) in
      match (if wants_write then write_error w else None) with
      | Some e =>
          {| returned := ResultError e trace_name device_id;
             history := [s1]; actions := [pushed; ran] |}
      | None =>
          let s2 := alter (set_status "completed") trace_id s1 in
          let s3 := alter (set_end_time (now_end w)) trace_id s2 in
          let s4 := alter (set_output_size (String.length output)) trace_id s3 in
          {| returned :=
               ResultDone success trace_id trace_name device_id output_file
                          (S (count_newlines output)) "completed";
             history := [s1; s2; s3; s4];
             actions := [pushed; ran]
                          ++ (if wants_write then [WriteFile output_file output] else []) |}
      end.

Definition get_trace_result (active_traces : store) (trace_id : string) : option trace_meta :=
  active_traces !! trace_id.

(** The status a session shows in a store, if the session is there. *)
Definition status_of (active_traces : store) (trace_id : string) : option string :=
  status <$> get_trace_result active_traces trace_id.

(** *** The three stock traces *)

(** What [execute_syscall_trace] and its two siblings return: the two-key
    dict for a script that is not there, or what [execute_bpftrace] does. *)
Inductive trace_call : Type :=
  | TraceScriptNotFound
  | TraceExecuted (o : outcome).

(** [str(self.scripts_dir / name)]. *)
Definition script_in (scripts_dir name : string) : string :=
  scripts_dir +:+ "/" +:+ name.


Definition execute_file_access_trace (scripts_dir : string) (w : world)
    (active_traces : store) (device_id : string) (duration : Z) : trace_call :=
  let trace_name := "file_access_trace" in
  let script_path := script_in scripts_dir "file_access.bt" in
  if negb (script_exists w) then TraceScriptNotFound
  else TraceExecuted
         (execute_bpftrace w active_traces device_id script_path trace_name duration true).

Definition execute_memory_trace (scripts_dir : string) (w : world)
    (active_traces : store) (device_id : string) (duration : Z) : trace_call :=
  let trace_name := "memory_trace" in
  let script_path := script_in scripts_dir "memory_trace.bt" in
  if negb (script_exists w) then TraceScriptNotFound
  else TraceExecuted
         (execute_bpftrace w active_traces device_id script_path trace_name duration true).

End Orchestrator.

(** ** backend/device_manager.py *)

Module DeviceManager.

Record AndroidDevice : Type := Device {
  device_id : string;
  state : string;
  model : option string;
  device_name : option string;
  api_level : option string;
  kernel_version : option string
}.

(** How a run of adb ends: with an exit status and its two outputs, with
    [subprocess.TimeoutExpired], with [FileNotFoundError] (no adb), or with
    some other exception [e], [str(e) = msg]. *)
Inductive adb_end : Type :=
  | AdbExited (returncode : Z) (stdout stderr : string)
  | AdbTimedOut
  | AdbNotFound
  | AdbRaised (msg : string).

(** adb as the manager sees it during one call: what each command line
    gives. *)
Definition adb_world : Type := list string → adb_end.

(** [s.split(sep)] for a one-character separator. *)
Fixpoint split_on (sep : ascii) (s : string) : list string :=
  match s with
  | EmptyString => [""]
  | String c s' =>
      if Ascii.eqb c sep then "" :: split_on sep s'
      else match split_on sep s' with
           | piece :: pieces => String c piece :: pieces
           | [] => [String c ""]
           end
  end.

(** [s.split()], for ASCII text: the maximal runs of characters that are
    not white space; [cur] is the run being read, if any. *)
Fixpoint split_ws_go (cur : option string) (s : string) : list string :=
  match s with
  | EmptyString => option_list (String.rev <$> cur)
  | String c s' =>
      if isspace c then option_list (String.rev <$> cur) ++ split_ws_go None s'
      else split_ws_go (Some (String c (default "" cur))) s'
  end.

Definition split_ws (s : string) : list string := split_ws_go None s.

Section manager.
(** [str.strip] and [str.split] without argument. *)
Variable strip : string → string.
Variable split : string → list string.

(** [_run_adb_command]: the output it returns, or the message of the
    exception it raises. *)
Definition _run_adb_command (adb : adb_world) (command : list string)
    (device_id : option string) : string + string :=
  let full_cmd :=
    ["adb"]
      ++ match TraceDataManager.truthy device_id with
         | Some d => ["-s"; d]
         | None => []
         end
      ++ command in
  match adb full_cmd with
  | AdbExited rc stdout stderr =>
      if bool_decide (rc = 0) then inl (strip stdout)
      else inr ("ADB command failed: " +:+ stderr)
  | AdbTimedOut => inr ("ADB command timed out: " +:+ Orchestrator.join " " command)
  | AdbNotFound => inr "ADB not found in PATH. Please ensure ADB is installed and in PATH."
  | AdbRaised msg => inr msg
  end.

(** [x if x else "Unknown"]. *)
Definition or_unknown (x : string) : string :=
  if bool_decide (x = "") then "Unknown" else x.

Definition set_model (x : string) (d : AndroidDevice) : AndroidDevice :=
  {| device_id := device_id d; state := state d; model := Some x;
     device_name := device_name d; api_level := api_level d;
     kernel_version := kernel_version d |}.

Definition set_device_name (x : string) (d : AndroidDevice) : AndroidDevice :=
  {| device_id := device_id d; state := state d; model := model d;
     device_name := Some x; api_level := api_level d;
     kernel_version := kernel_version d |}.

Definition set_api_level (x : string) (d : AndroidDevice) : AndroidDevice :=
  {| device_id := device_id d; state := state d; model := model d;
     device_name := device_name d; api_level := Some x;
     kernel_version := kernel_version d |}.

Definition set_kernel_version (x : string) (d : AndroidDevice) : AndroidDevice :=
  {| device_id := device_id d; state := state d; model := model d;
     device_name := device_name d; api_level := api_level d;
     kernel_version := Some x |}.

(** [_fetch_device_info(device)]: four queries in a row, each filling one
    field of the device; the first that raises ends the function, which
    returns the device as filled so far. *)
Definition _fetch_device_info (adb : adb_world) (device : AndroidDevice) : AndroidDevice :=
  let id := Some (device_id device) in
  match _run_adb_command adb ["shell"; "getprop"; "ro.product.model"] id with
  | inr _ => device
  | inl model =>
      let device := set_model (or_unknown model) device in
      match _run_adb_command adb ["shell"; "getprop"; "ro.product.device"] id with
      | inr _ => device
      | inl device_name =>
          let device := set_device_name (or_unknown device_name) device in
          match _run_adb_command adb ["shell"; "getprop"; "ro.build.version.sdk"] id with
          | inr _ => device
          | inl api_level =>
              let device := set_api_level (or_unknown api_level) device in
              match _run_adb_command adb ["shell"; "uname"; "-r"] id with
              | inr _ => device
              | inl kernel => set_kernel_version (or_unknown kernel) device
              end
          end
      end
  end.

(** [self.devices]: a dict, in insertion order. *)
Definition registry : Type := list (string * AndroidDevice).

(** [d[k] = v]: an existing key keeps its place. *)
Fixpoint dict_set {V : Type} (k : string) (v : V) (d : list (string * V)) : list (string * V) :=
  match d with
  | [] => [(k, v)]
  | (k', v') :: d' =>
      if bool_decide (k' = k) then (k, v) :: d' else (k', v') :: dict_set k v d'
  end.

Fixpoint dict_get {V : Type} (k : string) (d : list (string * V)) : option V :=
  match d with
  | [] => None
  | (k', v') :: d' => if bool_decide (k' = k) then Some v' else dict_get k d'
  end.

Definition allowed_states : list string := ["device"; "offline"; "unknown"].

(** One turn of the loop of [detect_devices] over the devices found and the
    registry. *)
Definition detect_line (adb : adb_world) (st : list AndroidDevice * registry)
    (line : string) : list AndroidDevice * registry :=
  if bool_decide (strip line = "") || String.prefix "*" line then st
  else
    match split line with
    | device_id :: state :: _ =>
        if bool_decide (state ∈ allowed_states) then
          let device :=
            {| device_id := device_id; state := state; model := None;
               device_name := None; api_level := None; kernel_version := None |} in
          let device :=
            if bool_decide (state = "device") then _fetch_device_info adb device
            else device in
          (st.1 ++ [device], dict_set device_id device st.2)
        else st
    | _ => st
    end.

(** [detect_devices()]: the devices it returns and the registry it leaves,
    or the message of the exception it raises, the registry then being as
    it was. *)
Definition detect_devices (adb : adb_world) (devices : registry)
    : (list AndroidDevice * registry) + string :=
  match _run_adb_command adb ["devices"; "-l"] None with
  | inr e => inr e
  | inl output =>
      inl (foldl (detect_line adb) ([], devices)
                 (tail (split_on "010" output)))
  end.

Definition get_device (devices : registry) (device_id : string) : option AndroidDevice :=
  dict_get device_id devices.

(** What [list_devices_json()] returns, and the registry it leaves. *)
Record devices_json : Type := DevicesJson {
  dj_timestamp : string;
  dj_device_count : nat;
  dj_devices : list AndroidDevice
}.

Definition list_devices_json (adb : adb_world) (now : string) (devices : registry)
    : (devices_json * registry) + string :=
  match detect_devices adb devices with
  | inr e => inr e
  | inl (_, devices) =>
      inl ({| dj_timestamp := now; dj_device_count := length devices;
              dj_devices := devices.*2 |}, devices)
  end.

End manager.

End DeviceManager.

(** ** A decoder for flat JSON objects *)

(** The parsers take [json.loads] as a parameter. To run them on concrete
    lines, [FlatJson] decodes the fragment of JSON whose values the
    embedding has: one object whose members are strings without escapes,
    integers, [true], [false] and [null], or ([loads_value]) one such
    scalar alone. Text that is not JSON is answered [JSONDecodeError].
    JSON outside the fragment (nesting, floats, escapes) is answered
    [JSONDecodeError] too, although [json.loads] decodes it, and
    [FlatJson.loads] does so for a scalar alone: such lines are not used
    with them below. *)

Module FlatJson.

Definition dquote : ascii := "034"%char.

(** A string literal of JSON: [quoted s] is [s] between double quotes. *)
Definition quoted (s : string) : string :=
  String dquote (s +:+ String dquote "").

Definition is_ws (c : ascii) : bool :=
  match c with
  | " " | "009" | "010" | "013" => true
  | _ => false
  end%char.

Fixpoint skip_ws (s : string) : string :=
  match s with
  | String c s' => if is_ws c then skip_ws s' else s
  | EmptyString => ""
  end.

(** After an opening quote: the text up to the closing quote, and what
    follows it. *)
Fixpoint read_string_body (s : string) : option (string * string) :=
  match s with
  | EmptyString => None
  | String c s' =>
      if Ascii.eqb c dquote then Some ("", s')
      else if Ascii.eqb c "\"%char || (N_of_ascii c <? 32)%N then None
      else '(body, rest) ← read_string_body s'; Some (String c body, rest)
  end.

Fixpoint read_digits (s : string) : list Z * string :=
  match s with
  | String c s' =>
      match Ascii.is_nat c with
      | Some d => let '(ds, rest) := read_digits s' in (Z.of_nat d :: ds, rest)
      | None => ([], s)
      end
  | EmptyString => ([], "")
  end.

Definition read_nat (s : string) : option (Z * string) :=
  let '(ds, rest) := read_digits s in
  match ds with
  | [] => None
  | [d] => Some (d, rest)
  | 0 :: _ => None
  | _ => Some (foldl (λ acc d, 10 * acc + d) 0 ds, rest)
  end.

Definition read_value (s : string) : option (value * string) :=
  match s with
  | String c s' =>
      if Ascii.eqb c dquote then
        '(body, rest) ← read_string_body s'; Some (VStr body, rest)
      else if Ascii.eqb c "-" then
        '(n, rest) ← read_nat s'; Some (VInt (- n), rest)
      else if String.prefix "true" s then Some (VBool true, String.substring 4 (String.length s - 4) s)
      else if String.prefix "false" s then Some (VBool false, String.substring 5 (String.length s - 5) s)
      else if String.prefix "null" s then Some (VNone, String.substring 4 (String.length s - 4) s)
      else '(n, rest) ← read_nat s; Some (VInt n, rest)
  | EmptyString => None
  end.

(** The members of an object, from the first character of a member name; a
    repeated name keeps its last value. *)
Fixpoint read_members (fuel : nat) (acc : Event) (s : string) : option (Event * string) :=
  match fuel with
  | O => None
  | S fuel =>
      match s with
      | String c s1 =>
          if Ascii.eqb c dquote then
            '(k, s2) ← read_string_body s1;
            match skip_ws s2 with
            | String ":" s3 =>
                '(v, s4) ← read_value (skip_ws s3);
                match skip_ws s4 with
                | String "," s5 => read_members fuel (<[k := v]> acc) (skip_ws s5)
                | String "}" s5 => Some (<[k := v]> acc, s5)
                | _ => None
                end
            | _ => None
            end
          else None
      | EmptyString => None
      end
  end.

Definition read_object (s : string) : option Event :=
  match skip_ws s with
  | String "{" s1 =>
      '(e, rest) ←
        match skip_ws s1 with
        | String "}" s2 => Some (∅, s2)
        | s1' => read_members (String.length s) ∅ s1'
        end;
      if bool_decide (skip_ws rest = "") then Some e else None
  | _ => None
  end.

(** A scalar alone on the line: the name of its Python type. *)
Definition read_scalar (s : string) : option string :=
  '(v, rest) ← read_value (skip_ws s);
  if bool_decide (skip_ws rest = "")
  then Some match v with
            | VNone => "NoneType" | VBool _ => "bool" | VInt _ => "int" | VStr _ => "str"
            end
  else None.

(** The decoder of the lines that are events, and the decoder of the
    lines that are events or scalars. *)
Definition loads (s : string) : loads_result Event :=
  match read_object s with
  | Some e => Returned e
  | None => JSONDecodeError
  end.

Definition loads_value (s : string) : loads_result json_value :=
  match read_object s, read_scalar s with
  | Some e, _ => Returned (JObject e)
  | None, Some type_name => Returned (JOther type_name)
  | None, None => JSONDecodeError
  end.

(** [json.loads] recurses into nested lists and raises [RecursionError]
    beyond the depth the interpreter allows. [loads_nested] is [loads]
    with that failure, for text that opens more than [depth_limit] lists;
    [opening n] is the text that opens [n] lists. *)
Definition depth_limit : nat := 50 * 1000.

Fixpoint leading_opens (s : string) : nat :=
  match s with
  | String "[" s' => S (leading_opens s')
  | _ => 0
  end.

Fixpoint opening (n : nat) : string :=
  match n with
  | O => ""
  | S n' => String "[" (opening n')
  end.

Definition loads_nested (s : string) : loads_result Event :=
  if (depth_limit <? leading_opens (skip_ws s))%nat then OtherError else loads s.

(** [member k v] is the JSON text of one member, [object ms] of an object,
    [line ms] of the object on a line of its own. *)
Definition member (k v : string) : string := quoted k +:+ ":" +:+ v.
Definition object (members : list string) : string :=
  "{" +:+ Orchestrator.join "," members +:+ "}".
Definition newline : string := String "010" "".
Definition line (members : list string) : string := object members +:+ newline.

End FlatJson.

(** ** Sample data: the scenario of the design document *)

Module Sample.
Import FlatJson.

Definition open1 : string :=
  line [member "event" (quoted "open"); member "pid" "1";
        member "comm" (quoted "a"); member "timestamp" "100"].
Definition open2 : string :=
  line [member "event" (quoted "open"); member "pid" "2";
        member "comm" (quoted "b"); member "timestamp" "105"].
Definition not_json : string := "not json" +:+ newline.

Definition trace : file_read := FileRead [open1; open2; not_json] EndOfFile.

Definition ev_open1 : Event :=
  {[ "event" := VStr "open"; "pid" := VInt 1; "comm" := VStr "a"; "timestamp" := VInt 100 ]}.
Definition ev_open2 : Event :=
  {[ "event" := VStr "open"; "pid" := VInt 2; "comm" := VStr "b"; "timestamp" := VInt 105 ]}.

(** Worlds to run [execute_bpftrace] in. *)
Definition sample_world (script_exists : bool) (remote : Orchestrator.process)
    : Orchestrator.world :=
  {| Orchestrator.output_dir := "output";
     Orchestrator.script_exists := script_exists;
     Orchestrator.push := Orchestrator.PushExited 0;
     Orchestrator.remote := remote;
     Orchestrator.write_error := None;
     Orchestrator.now_file := "20250101_120000";
     Orchestrator.now_id := "1735732800.0";
     Orchestrator.now_start := "2025-01-01T12:00:00";
     Orchestrator.now_end := "2025-01-01T12:01:10" |}.

Definition sample_call (w : Orchestrator.world) : Orchestrator.outcome :=
  Orchestrator.execute_bpftrace w ∅ "emulator-5554" "scripts/syscall_trace.bt"
    "syscall_trace_all" 60 true.

Definition sample_id : string := "emulator-5554_syscall_trace_all_1735732800.0".

End Sample.

(** ** Vocabulary of the properties *)

Import TraceDataManager TraceAnalyzer.

(** The representative of a scalar among the scalars [==] to it: two
    scalars are [==] exactly when they have the same representative. *)
Definition key_norm (v : value) : value :=
  match v with
  | VBool b => VInt (Z.b2z b)
  | _ => v
  end.

(** For a sort that only asks [lt]: [a] may stand before [b] when [b] is
    not below [a]. *)
Definition may_precede {A : Type} (lt : A → A → bool) (a b : A) : Prop :=
  lt b a = false.

(** The sum, over the entries of a dict, of a size of the entry's value:
    the number of grouped items when the values are lists, the number of
    counted items when they are counts. *)
Definition dict_total {V : Type} (size : V → nat) (d : pydict V) : nat :=
  sum_list (size <$> values d).

(** The loops of the aggregations are all of one shape: each item updates
    the entry of its key. *)
Definition tally {V : Type} (dflt : V) (upd : Event → V → V) (key : Event → value)
    (events : list Event) : pydict V :=
  foldl (λ d e, update_default dflt (upd e) (key e) d) [] events.

(** The events a dict lookup of [k] speaks about: those whose key is [==]
    to [k]. *)
Definition with_key (key : Event → value) (k : value) (events : list Event) : list Event :=
  List.filter (λ e, py_eqb (key e) k) events.

Definition event_type_of (e : Event) : value := get_or e "event" (VStr "unknown").
Definition timestamp_of (e : Event) : value := get_or e "timestamp" (VInt 0).

(** A [defaultdict] has an entry only for the keys that were touched. *)
Definition some_if_nonempty {B : Type} (l : list B) : option (list B) :=
  match l with [] => None | _ => Some l end.


(** *** Lines of a trace file *)

Section line_classes.
Context {A : Type} (strip : string → string) (json_loads : string → loads_result A).
(** The text a parser hands to the decoder: the stripped line in
    [parse_json_trace], the line as read in [_load_events]. *)
Variable text : string → string.

Definition blank (line : string) : bool := bool_decide (strip line = "").



Definition aborting (line : string) : bool :=
  negb (blank line) &&
  match json_loads (text line) with OtherError => true | _ => false end.

End line_classes.




(** *** Events as the data model types them *)

(** [comm], when present, is a process name: a string. *)
Definition comm_typed (e : Event) : Prop :=
  match e !! "comm" with
  | Some (VStr _) | None => True
  | Some _ => False
  end.

(** The test of the comm filters on such an event: the substring occurs
    in the process name, an event without [comm] having the empty name. *)
Definition comm_matches (c : string) (e : Event) : bool :=
  contains c (str_of (get_or e "comm" (VStr ""))).



(** Adjacent differences of a list of numbers. *)
Fixpoint gaps (l : list Z) : list Z :=
  match l with
  | a :: (b :: _) as rest => (b - a) :: gaps rest
  | _ => []
  end.

(** The interval statistics of a list of gaps, none for no gap: the exact
    mean, the least and the greatest gap. *)
Definition stats_of_gaps (ds : list Z) : option interval_stats :=
  match ds with
  | [] => None
  | d :: ds' =>
      Some {| avg_interval := Qmake (foldr Z.add 0 ds) (Pos.of_nat (length ds));
              min_interval := foldl Z.min d ds';
              max_interval := foldl Z.max d ds' |}
  end.


(** *** Sessions *)

(** The identifier [execute_bpftrace] gives the session it creates. *)
Definition trace_id_of (w : Orchestrator.world) (device_id trace_name : string) : string :=
  device_id +:+ "_" +:+ trace_name +:+ "_" +:+ Orchestrator.now_id w.

(** What [execute_bpftrace] gets back from the remote run as its output. *)
Definition remote_output (w : Orchestrator.world) : string :=
  (Orchestrator._run_command_on_device (Orchestrator.remote w) false).1.2.

(** A world in which the script is there and reaches the device: the call
    gets as far as the remote run. *)
Definition reaches_run (w : Orchestrator.world) : Prop :=
  Orchestrator.script_exists w = true ∧
  Orchestrator._push_script_to_device (Orchestrator.push w) = true.

(** A world in which the output, if there is any to write, is written
    without an error. *)
Definition output_saved (w : Orchestrator.world) : Prop :=
  Orchestrator.write_error w = None ∨ remote_output w = "".

(** The file [execute_bpftrace] means to write, the command it runs on the
    device, and the record it creates. *)
Definition output_file_of (w : Orchestrator.world) (device_id trace_name : string) : string :=
  Orchestrator.output_dir w +:+ "/" +:+ trace_name +:+ "_" +:+ device_id +:+ "_"
    +:+ Orchestrator.now_file w +:+ ".json".

Definition remote_script_of (script_path : string) : string :=
  "/data/local/tmp/" +:+ Orchestrator.basename script_path.

Definition remote_command (script_path : string) (duration : Z) (json_output : bool) : string :=
  "timeout " +:+ pretty duration +:+ " "
    +:+ Orchestrator.join " "
          (["bpftrace"] ++ (if json_output then ["-f"; "json"] else [])
             ++ [remote_script_of script_path]).

Definition running_record (w : Orchestrator.world) (device_id trace_name : string)
    (duration : Z) : Orchestrator.trace_meta :=
  {| Orchestrator.device_id := device_id; Orchestrator.trace_name := trace_name;
     Orchestrator.output_file := output_file_of w device_id trace_name;
     Orchestrator.status := "running";
     Orchestrator.start_time := Orchestrator.now_start w;
     Orchestrator.duration := duration;
     Orchestrator.end_time := None; Orchestrator.output_size := None |}.

(** The same record once the call is through. *)
Definition completed_record (w : Orchestrator.world) (device_id trace_name : string)
    (duration : Z) : Orchestrator.trace_meta :=
  {| Orchestrator.device_id := device_id; Orchestrator.trace_name := trace_name;
     Orchestrator.output_file := output_file_of w device_id trace_name;
     Orchestrator.status := "completed";
     Orchestrator.start_time := Orchestrator.now_start w;
     Orchestrator.duration := duration;
     Orchestrator.end_time := Some (Orchestrator.now_end w);
     Orchestrator.output_size := Some (String.length (remote_output w)) |}.

(** Text of ASCII characters only: its [len] is its number of
    characters here. *)
Definition ascii_text (s : string) : bool :=
  forallb (λ c, (N_of_ascii c <? 128)%N) (String.list_ascii_of_string s).

Definition is_shell (a : Orchestrator.action) : bool :=
  match a with Orchestrator.AdbShell _ _ _ => true | _ => false end.

Definition is_write (a : Orchestrator.action) : bool :=
  match a with Orchestrator.WriteFile _ _ => true | _ => false end.


(** *** More on events *)





(** The tests of [filter_events]: a criterion that is not given, or is an
    empty type, lets every event through. *)
Definition type_criterion (event_type : option string) (e : Event) : bool :=
  match truthy event_type with
  | Some t => py_eqb (get e "event") (VStr t)
  | None => true
  end.

Definition pid_criterion (pid : option Z) (e : Event) : bool :=
  match pid with
  | Some p => py_eqb (get e "pid") (VInt p)
  | None => true
  end.




(** *** Devices *)

(** A device as [detect_devices] first makes it: nothing known but its id
    and state. *)
Definition fresh_device (device_id state : string) : DeviceManager.AndroidDevice :=
  DeviceManager.Device device_id state None None None None.

(** The four properties [_fetch_device_info] asks a device for, in the
    order in which it asks. *)
Definition info_fields (d : DeviceManager.AndroidDevice) : list (option string) :=
  [DeviceManager.model d; DeviceManager.device_name d;
   DeviceManager.api_level d; DeviceManager.kernel_version d].

(** The command lines of the four queries to a device. *)
Definition info_queries (device_id : string) : list (list string) :=
  (λ command, ["adb"; "-s"; device_id] ++ command)
    <$> [["shell"; "getprop"; "ro.product.model"];
         ["shell"; "getprop"; "ro.product.device"];
         ["shell"; "getprop"; "ro.build.version.sdk"];
         ["shell"; "uname"; "-r"]].

(** What a query that does not raise gives [_fetch_device_info]. *)
Definition answer (strip : string → string) (e : DeviceManager.adb_end) : option string :=
  match e with
  | DeviceManager.AdbExited 0 stdout _ => Some (DeviceManager.or_unknown (strip stdout))
  | _ => None
  end.

(** The answers up to the first query that raises, and none after it. *)
Fixpoint answers_until_failure (l : list (option string)) : list (option string) :=
  match l with
  | Some x :: l' => Some x :: answers_until_failure l'
  | _ => (λ _, None) <$> l
  end.

(** The device that the latest line about [id] gave, if any line is about
    [id]. *)
Definition latest (id : string) (found : list DeviceManager.AndroidDevice)
    : option DeviceManager.AndroidDevice :=
  last (List.filter (λ d, bool_decide (DeviceManager.device_id d = id)) found).

(** An adb with three lines under the header of [adb devices -l]: a
    running emulator, an offline device and an unauthorized one. The
    emulator answers the first two queries, the second with nothing, and
    fails the third. *)
Definition sample_adb : DeviceManager.adb_world := λ cmd,
  let nl := String "010" "" in
  let query q := ["adb"; "-s"; "emulator-5554"; "shell"] ++ q in
  if bool_decide (cmd = ["adb"; "devices"; "-l"]) then
    DeviceManager.AdbExited 0
      ("List of devices attached" +:+ nl +:+
       "emulator-5554          device product:sdk_gphone" +:+ nl +:+
       "R58M12345 offline" +:+ nl +:+
       "0a1b2c3d unauthorized usb:1-1" +:+ nl) ""
  else if bool_decide (cmd = query ["getprop"; "ro.product.model"]) then
    DeviceManager.AdbExited 0 ("Pixel 7" +:+ nl) ""
  else if bool_decide (cmd = query ["getprop"; "ro.product.device"]) then
    DeviceManager.AdbExited 0 nl ""
  else if bool_decide (cmd = query ["getprop"; "ro.build.version.sdk"]) then
    DeviceManager.AdbExited 1 "" "error: closed"
  else DeviceManager.AdbTimedOut.

(** A registry that remembers a device no longer attached. *)
Definition sample_registry : DeviceManager.registry :=
  [("old-phone", DeviceManager.Device "old-phone" "device" (Some "Nexus 5") None None None)].

(** What [detect_devices] finds with [sample_adb], and the registry it
    leaves from [sample_registry]. *)
Definition sample_found : list DeviceManager.AndroidDevice :=
  [DeviceManager.Device "emulator-5554" "device" (Some "Pixel 7") (Some "Unknown") None None;
   DeviceManager.Device "R58M12345" "offline" None None None None].

Definition sample_detected : DeviceManager.registry :=
  sample_registry ++ ((λ d, (DeviceManager.device_id d, d)) <$> sample_found).

(** * Properties *)

(** Closed statements about concrete inputs are settled by running the
    code: each conjunct is an equation whose two sides are evaluated. *)
Ltac run_code := cbv zeta; repeat split; vm_compute; reflexivity.

(** ** Python equality and the insertion-ordered dicts *)

Section py_facts.

Lemma py_eqb_norm a b : py_eqb a b = bool_decide (key_norm a = key_norm b).
Proof.
  destruct a as [|[]|?|?], b as [|[]|?|?]; simpl;
    repeat case_bool_decide; simplify_eq/=; try done; congruence.
Qed.

Lemma py_eqb_true a b : py_eqb a b = true ↔ key_norm a = key_norm b.
Proof. rewrite py_eqb_norm. apply bool_decide_eq_true. Qed.

Lemma py_eqb_refl a : py_eqb a a = true.
Proof. by apply py_eqb_true. Qed.

Lemma py_eqb_sym a b : py_eqb a b = py_eqb b a.
Proof. rewrite !py_eqb_norm. apply bool_decide_ext. naive_solver. Qed.

Lemma py_eqb_trans_l a b c : py_eqb a b = true → py_eqb a c = py_eqb b c.
Proof.
  rewrite py_eqb_true, !py_eqb_norm. intros ->. done.
Qed.

Context {V : Type}.
Implicit Types (d : pydict V) (k : value) (f : V → V).

Lemma lookup_update_default_eq dflt f k k' d :
  py_eqb k k' = true →
  lookup_key k' (update_default dflt f k d)
  = Some (f (default dflt (lookup_key k' d))).
Proof.
  intros Hk. induction d as [|[k0 v] d IH]; simpl.
  - rewrite Hk. done.
  - assert (py_eqb k0 k' = py_eqb k0 k) as Hk0.
    { rewrite (py_eqb_sym k0 k'), (py_eqb_sym k0 k).
      symmetry. by apply py_eqb_trans_l. }
    rewrite Hk0. destruct (py_eqb k0 k) eqn:E; simpl in *;
      rewrite ?Hk0, ?E; auto.
Qed.

Lemma lookup_update_default_ne dflt f k k' d :
  py_eqb k k' = false →
  lookup_key k' (update_default dflt f k d) = lookup_key k' d.
Proof.
  intros Hk. induction d as [|[k0 v] d IH]; simpl.
  - rewrite Hk. done.
  - destruct (py_eqb k0 k) eqn:E; simpl.
    + rewrite (py_eqb_trans_l _ _ k' E), Hk. done.
    + rewrite IH. done.
Qed.

(** The keys of a dict after an update: the same, or one more at the end. *)
Lemma keys_update_default dflt f k d :
  keys (update_default dflt f k d)
  = if existsb (λ k0, py_eqb k0 k) (keys d) then keys d else keys d ++ [k].
Proof.
  unfold keys. induction d as [|[k0 v] d IH]; csimpl; [done|].
  destruct (py_eqb k0 k); csimpl; [done|].
  rewrite IH. by destruct (existsb _ _).
Qed.

Lemma dict_total_update_default (size : V → nat) dflt f k d :
  size dflt = 0%nat → (∀ v, size (f v) = S (size v)) →
  dict_total size (update_default dflt f k d) = S (dict_total size d).
Proof.
  intros H0 Hf. unfold dict_total, values.
  induction d as [|[k0 v] d IH]; csimpl.
  - rewrite Hf, H0. done.
  - destruct (py_eqb k0 k); csimpl.
    + rewrite Hf. done.
    + rewrite IH. lia.
Qed.

End py_facts.

(** ** The aggregation loops *)

Section tally_facts.
Context {V : Type} (dflt : V) (upd : Event → V → V) (key : Event → value).

Lemma tally_snoc events e :
  tally dflt upd key (events ++ [e])
  = update_default dflt (upd e) (key e) (tally dflt upd key events).
Proof. unfold tally. by rewrite foldl_snoc. Qed.

(** What a lookup finds: nothing when no event has the key, otherwise the
    default value updated by the events of the key, in their order. *)
Lemma tally_lookup events k :
  lookup_key k (tally dflt upd key events)
  = match with_key key k events with
    | [] => None
    | l => Some (foldl (λ v e, upd e v) dflt l)
    end.
Proof.
  induction events as [|e events IH] using rev_ind; [done|].
  rewrite tally_snoc. unfold with_key in *.
  rewrite List.filter_app. simpl.
  destruct (py_eqb (key e) k) eqn:E.
  - rewrite (lookup_update_default_eq _ _ _ _ _ E), IH.
    destruct (List.filter _ events) as [|e0 l]; simpl; [done|].
    rewrite foldl_snoc. done.
  - rewrite (lookup_update_default_ne _ _ _ _ _ E), IH.
    by rewrite app_nil_r.
Qed.

Lemma tally_total (size : V → nat) events :
  size dflt = 0%nat → (∀ e v, size (upd e v) = S (size v)) →
  dict_total size (tally dflt upd key events) = length events.
Proof.
  intros H0 Hupd. induction events as [|e events IH] using rev_ind; [done|].
  rewrite tally_snoc, dict_total_update_default by auto.
  rewrite length_app, IH. simpl. lia.
Qed.

(** Every key of the dict is the key of some event. *)
Lemma tally_keys events k :
  k ∈ keys (tally dflt upd key events) → ∃ e, e ∈ events ∧ key e = k.
Proof.
  induction events as [|e events IH] using rev_ind.
  - intros H. by apply elem_of_nil in H.
  - rewrite tally_snoc, keys_update_default.
    destruct (existsb _ _).
    + intros (e' & ? & ?)%IH. exists e'. split; [|done]. set_solver.
    + intros [H|H]%elem_of_app.
      * apply IH in H as (e' & ? & ?). exists e'. split; [|done]. set_solver.
      * apply list_elem_of_singleton in H as ->. exists e. split; [|done]. set_solver.
Qed.
End tally_facts.

(** ** Sorting *)

Section sorted_facts.
Context {A : Type} (lt : A → A → bool).

Lemma insert_sorted_Permutation x l : insert_sorted lt x l ≡ₚ x :: l.
Proof.
  induction l as [|y l IH]; simpl; [done|].
  destruct (lt y x); [|done].
  rewrite IH. apply Permutation_swap.
Qed.

Lemma sorted_with_Permutation l : sorted_with lt l ≡ₚ l.
Proof.
  induction l as [|x l IH]; simpl; [done|].
  rewrite insert_sorted_Permutation. by f_equiv.
Qed.

Hypothesis lt_asym : ∀ a b, lt a b = true → lt b a = false.

Lemma insert_sorted_Sorted x l :
  Sorted (may_precede lt) l → Sorted (may_precede lt) (insert_sorted lt x l).
Proof.
  induction 1 as [|y l Hl IH Hy]; simpl.
  - repeat constructor.
  - destruct (lt y x) eqn:E.
    + constructor; [done|].
      destruct Hy as [|z l Hz]; simpl in *.
      * constructor. by apply lt_asym.
      * destruct (lt z x); constructor; [done|]. by apply lt_asym.
    + repeat constructor; done.
Qed.

Lemma sorted_with_Sorted l : Sorted (may_precede lt) (sorted_with lt l).
Proof.
  induction l as [|x l IH]; simpl; [constructor|].
  by apply insert_sorted_Sorted.
Qed.
End sorted_facts.

Lemma Sorted_weaken {A} (R1 R2 : relation A) (l : list A) :
  (∀ a b, R1 a b → R2 a b) → Sorted R1 l → Sorted R2 l.
Proof.
  intros HR. induction 1 as [|x l Hl IH Hx]; constructor; [done|].
  destruct Hx; constructor. by apply HR.
Qed.

(** Strings in lexicographic order. *)
Lemma string_ltb_not_le (a b : string) : String.ltb b a = false ↔ String.le a b.
Proof.
  unfold String.le, String.ltb, String.leb.
  rewrite (String.compare_antisym b a).
  destruct (String.compare a b); simpl; split; try done.
Qed.

Lemma string_ltb_asym (a b : string) : String.ltb a b = true → String.ltb b a = false.
Proof.
  unfold String.ltb. rewrite (String.compare_antisym a b).
  by destruct (String.compare b a).
Qed.

Lemma sorted_strings_Sorted (l : list string) : Sorted String.le (sorted_with String.ltb l).
Proof.
  eapply Sorted_weaken; [|apply sorted_with_Sorted, string_ltb_asym].
  intros a b. apply string_ltb_not_le.
Qed.

(** Whatever order a set of strings is listed in, sorting gives one and
    the same list. *)
Lemma sorted_strings_unique (l1 l2 : list string) :
  l1 ≡ₚ l2 → sorted_with String.ltb l1 = sorted_with String.ltb l2.
Proof.
  intros H. apply (Sorted_unique String.le); try apply sorted_strings_Sorted.
  by rewrite !sorted_with_Permutation.
Qed.

(** ** Grouping and counting (C5, C6) *)

Section aggregation_facts.


Lemma foldl_append {A B} (item : B → A) (acc : list A) (l : list B) :
  foldl (λ v e, v ++ [item e]) acc l = acc ++ (item <$> l).
Proof.
  revert acc. induction l as [|x l IH]; intros acc; csimpl.
  - by rewrite app_nil_r.
  - rewrite IH, <- app_assoc. done.
Qed.







End aggregation_facts.






(** The scenario of the design document: two [open] events. *)
Example count_events_scenario :
  count_events (parse_json_trace strip FlatJson.loads Sample.trace)
  = [(VStr "open", 2%nat)].
Proof. run_code. Qed.

Example count_events_unknown_bucket :
  count_events [Sample.ev_open1; ∅; {[ "pid" := VInt 7 ]}]
  = [(VStr "open", 1%nat); (VStr "unknown", 2%nat)].
Proof. run_code. Qed.

(** A line that decodes to a number is no event: the summary is the error
    dict, and there is no total. *)
Example summarize_trace_not_an_event :
  summarize_trace strip FlatJson.loads_value
    (λ _, FileRead [Sample.open1; "123"] EndOfFile) "now" "trace.json"
  = SummaryFailed "'int' object has no attribute 'get'".
Proof. run_code. Qed.

(** ** Parsing (C4, C10) *)

Section parser_facts.
Context {A : Type} (strip : string → string) (json_loads : string → loads_result A).


Lemma parse_lines_aborted (lines : list string) (st : list A * list log_record) :
  Exists (λ line, aborting strip json_loads strip line = true) lines →
  (parse_lines strip json_loads st lines).2 = false.
Proof.
  intros Habort. revert st.
  induction lines as [|line lines IH]; intros st; [by inversion Habort|].
  simpl. unfold parse_line, aborting, blank in *.
  apply Exists_cons in Habort as [Hline|Hrest].
  - destruct (bool_decide (strip line = "")); simpl in *; [done|].
    by destruct (json_loads (strip line)).
  - destruct (bool_decide (strip line = "")); simpl in *; [by apply IH|].
    destruct (json_loads (strip line)); simpl; [by apply IH..|done].
Qed.


Lemma load_lines_aborted (lines : list string) (n : nat) (st : list A * list nat) :
  Exists (λ line, aborting strip json_loads id line = true) lines →
  (load_lines strip json_loads st (zip (seq n (length lines)) lines)).2 = false.
Proof.
  intros Habort. revert n st.
  induction lines as [|line lines IH]; intros n st; [by inversion Habort|].
  simpl. unfold aborting, blank in *. simpl in *.
  apply Exists_cons in Habort as [Hline|Hrest].
  - destruct (bool_decide (strip line = "")); simpl in *; [done|].
    by destruct (json_loads line).
  - destruct (bool_decide (strip line = "")); simpl in *; [by apply IH|].
    destruct (json_loads line); simpl; [by apply IH..|done].
Qed.














(** When the decoder raises an exception that is not [JSONDecodeError] on
    a line, the parse is given up: [parse_json_trace] returns the empty
    list, whatever it had decoded, and [_load_events] lets the exception
    escape. *)
Lemma parse_given_up (lines : list string) (how : read_end) :
  (Exists (λ line, aborting strip json_loads strip line = true) lines →
   parse_json_trace strip json_loads (FileRead lines how) = []) ∧
  (Exists (λ line, aborting strip json_loads id line = true) lines →
   _load_events strip json_loads (FileRead lines how) = LoadRaised).
Proof.
  split; intros Habort.
  - unfold parse_json_trace, parse_json_trace_run. simpl.
    pose proof (parse_lines_aborted lines ([], []) Habort) as H.
    destruct (parse_lines _ _ _ _) as [[events log] finished]. simpl in H.
    by subst finished.
  - unfold _load_events, _load_events_run, enumerate_from_1. simpl.
    pose proof (load_lines_aborted lines 1 ([], []) Habort) as H.
    destruct (load_lines _ _ _ _) as [[events invalid] finished]. simpl in H.
    by subst finished.
Qed.
End parser_facts.




(** The scenario of the design document: two events, one line skipped. *)
Example parse_scenario :
  parse_json_trace strip FlatJson.loads Sample.trace = [Sample.ev_open1; Sample.ev_open2] ∧
  parse_json_trace_log strip FlatJson.loads Sample.trace
  = [LogWarning "not json"; LogInfo 2] ∧
  _load_events_printed strip FlatJson.loads Sample.trace = [3%nat].
Proof. run_code. Qed.

(** What the log of [parse_json_trace] keeps of a parse that the decoder
    ended: the error, and no count of events. *)
Example parse_given_up_scenario :
  let f := FileRead [Sample.open1; FlatJson.opening (100 * 1000); Sample.open2] EndOfFile in
  parse_json_trace strip FlatJson.loads_nested f = [] ∧
  parse_json_trace_log strip FlatJson.loads_nested f = [LogError] ∧
  _load_events strip FlatJson.loads_nested f = LoadRaised.
Proof. run_code. Qed.

(** C10. When the trace file cannot be opened, or reading it fails part
    way, [parse_json_trace] returns the empty list, which is also what it
    returns for a file with no line in it: the caller cannot tell the two
    apart. *)
Theorem parse_json_trace_unreadable {A : Type} (strip : string → string)
    (json_loads : string → loads_result A) (f : file_read) :
  fr_end f ≠ EndOfFile →
  parse_json_trace strip json_loads f = [] ∧
  parse_json_trace strip json_loads f
  = parse_json_trace strip json_loads (FileRead [] EndOfFile).
Proof.
  intros Hend. unfold parse_json_trace, parse_json_trace_run.
  destruct (parse_lines _ _ _ (fr_lines f)) as [[events log] finished].
  destruct finished, (fr_end f); done.
Qed.

Lemma parse_json_trace_unreadable_witness :
  let missing := FileRead [] FileNotFound in
  fr_end missing ≠ EndOfFile ∧
  parse_json_trace strip FlatJson.loads missing = [] ∧
  parse_json_trace strip FlatJson.loads missing
  = parse_json_trace strip FlatJson.loads (FileRead [] EndOfFile).
Proof.
  split; [done|].
  apply (parse_json_trace_unreadable strip FlatJson.loads (FileRead [] FileNotFound)). done.
Defined.

(** A read that fails after a good line loses that line too. *)
Example parse_json_trace_read_error :
  parse_json_trace strip FlatJson.loads (FileRead [Sample.open1] ReadError) = [].
Proof. run_code. Qed.

(** ** Filtering by process name (C9) *)

Section filter_facts.

Lemma contains_empty s : contains "" s = true.
Proof. by destruct s. Qed.

Lemma contains_in_empty c : c ≠ "" → contains c "" = false.
Proof. by destruct c. Qed.

Lemma filter_raising_total {A} (p : A → option bool) (q : A → bool) (l : list A) :
  Forall (λ x, p x = Some (q x)) l →
  filter_raising p l = Some (List.filter q l).
Proof.
  induction 1 as [|x l Hx _ IH]; simpl; [done|].
  rewrite Hx, IH. done.
Qed.

Lemma filter_all {A} (q : A → bool) (l : list A) :
  (∀ x, q x = true) → List.filter q l = l.
Proof.
  intros Hq. induction l as [|x l IH]; simpl; [done|].
  by rewrite Hq, IH.
Qed.

Lemma filter_sublist {A} (q : A → bool) (l : list A) :
  List.filter q l `sublist_of` l.
Proof.
  induction l as [|x l IH]; simpl; [constructor|].
  destruct (q x); by constructor.
Qed.

Lemma str_in_comm_typed c e :
  comm_typed e →
  str_in c (get_or e "comm" (VStr "")) = Some (comm_matches c e).
Proof.
  unfold comm_typed, comm_matches, get_or.
  destruct (e !! "comm") as [[| | |s]|]; simpl; done.
Qed.

Lemma comm_matches_absent c e :
  c ≠ "" → e !! "comm" = None → comm_matches c e = false.
Proof.
  intros Hc He. unfold comm_matches, get_or. rewrite He. simpl.
  by apply contains_in_empty.
Qed.

End filter_facts.

(** C9 as stated fails: on an event whose [comm] is a number or [null]
    the membership test of [filter_by_comm] raises [TypeError], also for
    the empty substring, so no list of events is returned; and so does
    [filter_events] for a substring that is not empty. *)
Lemma filter_by_comm_raises :
  filter_by_comm [{[ "comm" := VInt 5 ]}] "" = None ∧
  filter_by_comm [{[ "comm" := VNone ]}] "" = None ∧
  filter_events [{[ "comm" := VInt 5 ]}] None None (Some "sh") = None.
Proof. run_code. Qed.

(** C9, as amended. On events typed as the data model says ([comm], when
    present, is a string), both comm filters keep, in their original order, exactly the
    events whose process name contains the substring, the name of an event
    without [comm] being empty: so the empty substring keeps every event,
    and a substring that is not empty drops every event without [comm]. *)
Theorem filter_by_comm_substring (events : list Event) :
  Forall comm_typed events →
  (filter_by_comm events "" = Some events ∧
   filter_events events None None (Some "") = Some events) ∧
  (∀ c, c ≠ "" →
     filter_by_comm events c = Some (List.filter (comm_matches c) events) ∧
     filter_events events None None (Some c) = Some (List.filter (comm_matches c) events) ∧
     (∀ e, e ∈ events → e !! "comm" = None → e ∉ List.filter (comm_matches c) events)) ∧
  (∀ c, List.filter (comm_matches c) events `sublist_of` events).
Proof.
  intros Htyped.
  assert (∀ c, filter_by_comm events c = Some (List.filter (comm_matches c) events)) as Hf.
  { intros c. apply filter_raising_total.
    eapply Forall_impl; [exact Htyped|]. intros e. apply str_in_comm_typed. }
  split; [split|split].
  - rewrite Hf. f_equal. apply filter_all. intros e. apply contains_empty.
  - reflexivity.
  - intros c Hc. split; [apply Hf|]. split.
    + unfold filter_events. simpl. rewrite bool_decide_false by done.
      apply Hf.
    + intros e _ Hnone He. apply list_elem_of_In, filter_In in He as [_ He].
      rewrite comm_matches_absent in He; done.
  - intros c. apply filter_sublist.
Qed.

Lemma filter_by_comm_substring_witness :
  let e : Event := {[ "event" := VStr "exit"; "pid" := VInt 3 ]} in
  let events := [Sample.ev_open1; e; Sample.ev_open2] in
  Forall comm_typed events ∧
  filter_by_comm events "" = Some events ∧
  filter_by_comm events "b" = Some [Sample.ev_open2].
Proof.
  set (e := ({[ "event" := VStr "exit"; "pid" := VInt 3 ]} : Event)).
  assert (Forall comm_typed [Sample.ev_open1; e; Sample.ev_open2]) as Htyped.
  { repeat constructor; vm_compute; exact I. }
  split; [exact Htyped|].
  destruct (filter_by_comm_substring _ Htyped) as ((H1 & _) & H2 & _).
  split; [exact H1|].
  destruct (H2 "b") as (H3 & _); [done|].
  rewrite H3. vm_compute. reflexivity.
Defined.

(** ** The tabular export (C8) *)

Section export_facts.

Lemma elem_of_all_keys_acc (events : list Event) (acc : gset string) k :
  k ∈ foldl (λ acc event, acc ∪ dom event) acc events
  ↔ k ∈ acc ∨ ∃ e, e ∈ events ∧ is_Some (e !! k).
Proof.
  revert acc. induction events as [|e events IH]; intros acc; simpl.
  - split; [auto|]. intros [?|(e & He & _)]; [done|]. by apply elem_of_nil in He.
  - rewrite IH, elem_of_union, elem_of_dom. split.
    + intros [[?|?]|(e' & ? & ?)]; [auto|right; exists e|right; exists e'];
        split; auto; by constructor.
    + intros [?|(e' & [->|?]%elem_of_cons & ?)]; [auto|auto|].
      right. exists e'. auto.
Qed.

Lemma elem_of_all_keys (events : list Event) k :
  k ∈ all_keys events ↔ ∃ e, e ∈ events ∧ is_Some (e !! k).
Proof.
  unfold all_keys. rewrite elem_of_all_keys_acc.
  split; [intros [H|H]; [by apply not_elem_of_empty in H|done]|auto].
Qed.

Lemma dict_to_row_fields keys (e : Event) :
  dict_to_row keys e
  = (λ k, match e !! k with Some v => csv_field v | None => "" end) <$> keys.
Proof.
  unfold dict_to_row. apply list_fmap_ext. intros _ k _.
  unfold get_or. by destruct (e !! k).
Qed.

End export_facts.

(** C8. When there are events and the file can be written, the header of
    the export is the set of the keys that occur in some event, each once,
    in lexicographic order; each event gives one record, in order, with one
    field per column, empty where the event has no such key; and the export
    does not depend on the order in which Python lists the key set, so that
    exporting again gives the same table. (Without events nothing is
    exported.) *)
Theorem export_csv_columns (list_of_set list_of_set' : gset string → list string)
    (writable : bool) (events : list Event) :
  (∀ s, list_of_set s ≡ₚ elements s) →
  (∀ s, list_of_set' s ≡ₚ elements s) →
  match export_csv list_of_set writable events with
  | NoEventsToExport => events = []
  | ExportFailed => writable = false
  | Exported t =>
      (∀ k, k ∈ csv_header t ↔ ∃ e, e ∈ events ∧ is_Some (e !! k)) ∧
      NoDup (csv_header t) ∧
      Sorted String.le (csv_header t) ∧
      csv_rows t
      = (λ e : Event,
           (λ k, match e !! k with Some v => csv_field v | None => "" end)
             <$> csv_header t) <$> events ∧
      export_csv list_of_set' writable events = Exported t
  end.
Proof.
  intros Hl Hl'. unfold export_csv.
  case_bool_decide as Hev; [done|].
  destruct writable; [|done]. simpl.
  assert (sorted_with String.ltb (list_of_set (all_keys events))
          ≡ₚ elements (all_keys events)) as Hperm.
  { by rewrite sorted_with_Permutation. }
  split; [|split; [|split; [|split]]].
  - intros k. rewrite Hperm, elem_of_elements. apply elem_of_all_keys.
  - rewrite Hperm. apply NoDup_elements.
  - apply sorted_strings_Sorted.
  - apply list_fmap_ext. intros _ e _. apply dict_to_row_fields.
  - rewrite (sorted_strings_unique (list_of_set' (all_keys events))
               (list_of_set (all_keys events))); [done|].
    by rewrite Hl, Hl'.
Qed.

Lemma export_csv_columns_witness :
  let e : Event := {[ "event" := VStr "exit"; "tid" := VInt 3 ]} in
  let events := [Sample.ev_open1; e] in
  (∀ s : gset string, elements s ≡ₚ elements s) ∧
  (∀ s : gset string, reverse (elements s) ≡ₚ elements s) ∧
  export_csv (λ s, reverse (elements s)) true events
  = export_csv elements true events ∧
  export_csv elements true events
  = Exported {| csv_header := ["comm"; "event"; "pid"; "tid"; "timestamp"];
                csv_rows := [["a"; "open"; "1"; ""; "100"];
                             [""; "exit"; ""; "3"; ""]] |}.
Proof.
  cbv zeta.
  assert (∀ s : gset string, elements s ≡ₚ elements s) as H1 by done.
  assert (∀ s : gset string, reverse (elements s) ≡ₚ elements s) as H2.
  { intros s. apply reverse_Permutation. }
  split; [exact H1|]. split; [exact H2|].
  assert (export_csv elements true
            [Sample.ev_open1; {[ "event" := VStr "exit"; "tid" := VInt 3 ]}]
          = Exported {| csv_header := ["comm"; "event"; "pid"; "tid"; "timestamp"];
                        csv_rows := [["a"; "open"; "1"; ""; "100"];
                                     [""; "exit"; ""; "3"; ""]] |}) as Hrun.
  { vm_compute. reflexivity. }
  split; [|exact Hrun].
  pose proof (export_csv_columns elements (λ s, reverse (elements s)) true
                [Sample.ev_open1; {[ "event" := VStr "exit"; "tid" := VInt 3 ]}]
                H1 H2) as H.
  rewrite Hrun in H. destruct H as (_ & _ & _ & _ & H). rewrite H. reflexivity.
Defined.

(** ** The timeline (C7) *)

Section timeline_facts.

Lemma num_lt_asym a b : num_lt a b = true → num_lt b a = false.
Proof. unfold num_lt. intros H%Z.ltb_lt. apply Z.ltb_ge. lia. Qed.

Lemma sorted_nums_Sorted (l : list value) :
  Sorted Z.le (num_of <$> sorted_with num_lt l).
Proof.
  eapply Sorted_fmap; [|apply sorted_with_Sorted, num_lt_asym].
  intros a b. unfold may_precede, num_lt. apply Z.ltb_ge.
Qed.

Lemma Sorted_short {A} (R : relation A) (l : list A) :
  (length l ≤ 1)%nat → Sorted R l.
Proof.
  destruct l as [|x [|y l]]; simpl; intros; [repeat constructor..|lia].
Qed.

(** Sorting numbers does not raise, and sorts. *)
Lemma py_sorted_nums (l : list value) :
  forallb is_num l = true →
  ∃ ts, py_sorted l = Some ts ∧ ts ≡ₚ l ∧ Sorted Z.le (num_of <$> ts).
Proof.
  intros Hnum. unfold py_sorted. case_bool_decide as Hlen.
  - exists l. split; [done|]. split; [done|].
    apply Sorted_short. by rewrite length_fmap.
  - rewrite Hnum. eexists. split; [done|].
    split; [apply sorted_with_Permutation|apply sorted_nums_Sorted].
Qed.


Lemma adjacent_differences_nums (ts : list value) :
  forallb is_num ts = true →
  adjacent_differences ts = Some (gaps (num_of <$> ts)).
Proof.
  induction ts as [|a [|b ts] IH]; intros Hnum; [done..|].
  assert (adjacent_differences (a :: b :: ts)
          = d ← py_sub b a; ds ← adjacent_differences (b :: ts); Some (d :: ds))
    as -> by done.
  simpl in Hnum. apply andb_prop in Hnum as [Ha Hnum].
  rewrite IH by done.
  pose proof Hnum as Hb. simpl in Hb. apply andb_prop in Hb as [Hb _].
  unfold is_num in Ha, Hb. apply bool_decide_eq_true in Ha as [x Hx], Hb as [y Hy].
  unfold py_sub, num_of. csimpl. rewrite Hx, Hy. done.
Qed.

Lemma gaps_length (l : list Z) : length (gaps l) = (length l - 1)%nat.
Proof.
  induction l as [|a [|b l] IH]; [done..|].
  change (gaps (a :: b :: l)) with ((b - a) :: gaps (b :: l)).
  simpl in *. rewrite IH. lia.
Qed.

Lemma foldl_min_le (d : Z) (ds : list Z) :
  Forall (λ x, foldl Z.min d ds ≤ x) (d :: ds) ∧ foldl Z.min d ds ∈ d :: ds.
Proof.
  revert d. induction ds as [|x ds IH]; intros d; simpl.
  - split; [repeat constructor; lia|by constructor].
  - destruct (IH (Z.min d x)) as [Hle Hin]. split.
    + inversion Hle as [|? ? Hm Hrest]; subst.
      assert (foldl Z.min (Z.min d x) ds ≤ Z.min d x) as Hm' by done.
      constructor; [lia|]. constructor; [lia|done].
    + apply elem_of_cons in Hin as [Hin|Hin].
      * rewrite Hin. destruct (Z.min_spec d x) as [[_ ->]|[_ ->]];
          [by constructor|by do 2 constructor].
      * by do 2 constructor.
Qed.

Lemma foldl_max_ge (d : Z) (ds : list Z) :
  Forall (λ x, x ≤ foldl Z.max d ds) (d :: ds) ∧ foldl Z.max d ds ∈ d :: ds.
Proof.
  revert d. induction ds as [|x ds IH]; intros d; simpl.
  - split; [repeat constructor; lia|by constructor].
  - destruct (IH (Z.max d x)) as [Hle Hin]. split.
    + inversion Hle as [|? ? Hm Hrest]; subst.
      assert (Z.max d x ≤ foldl Z.max (Z.max d x) ds) as Hm' by done.
      constructor; [lia|]. constructor; [lia|done].
    + apply elem_of_cons in Hin as [Hin|Hin].
      * rewrite Hin. destruct (Z.max_spec d x) as [[_ ->]|[_ ->]];
          [by do 2 constructor|by constructor].
      * by do 2 constructor.
Qed.

(** The statistics of a list of gaps are its exact mean, its least and its
    greatest member. *)
Lemma stats_of_gaps_sound (ds : list Z) (s : interval_stats) :
  stats_of_gaps ds = Some s →
  avg_interval s = Qmake (foldr Z.add 0 ds) (Pos.of_nat (length ds)) ∧
  min_interval s ∈ ds ∧ max_interval s ∈ ds ∧
  Forall (λ d, min_interval s ≤ d ≤ max_interval s) ds.
Proof.
  destruct ds as [|d ds]; [done|]. intros [= <-]. simpl.
  destruct (foldl_min_le d ds) as [Hmin Hmin_in].
  destruct (foldl_max_ge d ds) as [Hmax Hmax_in].
  repeat split; try done.
  rewrite Forall_forall in *. intros x Hx. split; [by apply Hmin|by apply Hmax].
Qed.


End timeline_facts.

Section report_facts.
Lemma forallb_Permutation {A} (p : A → bool) (l1 l2 : list A) :
  l1 ≡ₚ l2 → forallb p l1 = forallb p l2.
Proof.
  induction 1 as [|x l1 l2 _ IH|x y l|l1 l2 l3 _ IH1 _ IH2]; simpl.
  - done.
  - by rewrite IH.
  - by destruct (p x), (p y).
  - by rewrite IH1.
Qed.

Lemma py_sub_nums a b :
  is_num a = true → is_num b = true → py_sub a b = Some (num_of a - num_of b).
Proof.
  unfold is_num, py_sub, num_of.
  intros [x ->]%bool_decide_eq_true [y ->]%bool_decide_eq_true. done.
Qed.

Lemma forallb_head {A} (p : A → bool) (l : list A) x :
  forallb p l = true → head l = Some x → p x = true.
Proof. destruct l; simpl; [done|]. intros [? _]%andb_prop [= <-]. done. Qed.

Lemma forallb_last {A} (p : A → bool) (l : list A) x :
  forallb p l = true → last l = Some x → p x = true.
Proof.
  intros Hp Hl. apply last_Some in Hl as [l' ->].
  rewrite forallb_app in Hp. apply andb_prop in Hp as [_ Hp].
  simpl in Hp. by apply andb_prop in Hp as [? _].
Qed.






(** What a block says, when one is written for timestamps that are
    numbers. *)
Lemma report_type_inv (k : value) (recorded : list value) (r : type_report) :
  recorded ≠ [] → forallb is_num recorded = true →
  report_type k recorded = Some r →
  ∃ ts,
    py_sorted recorded = Some ts ∧ ts ≡ₚ recorded ∧
    Sorted Z.le (num_of <$> ts) ∧
    r_type r = k ∧
    r_count r = length recorded ∧
    head ts = Some (r_first r) ∧ last ts = Some (r_last r) ∧
    r_range r = num_of (r_last r) - num_of (r_first r) ∧
    length (gaps (num_of <$> ts)) = (length recorded - 1)%nat ∧
    r_intervals r
    = if bool_decide (length recorded ≤ 1)%nat then None
      else stats_of_gaps (gaps (num_of <$> ts)).
Proof.
  intros Hne Hnum.
  destruct (py_sorted_nums recorded Hnum) as (ts & Hts & Hperm & Hsorted).
  assert (forallb is_num ts = true) as Hnum' by by rewrite (forallb_Permutation _ _ _ Hperm).
  assert (length ts = length recorded) as Hlen by by rewrite Hperm.
  destruct (head ts) as [first|] eqn:Hfirst; cycle 1.
  { destruct ts; [|done]. destruct recorded; done. }
  destruct (last ts) as [last|] eqn:Hlast; cycle 1.
  { apply last_None in Hlast. subst ts. destruct recorded; done. }
  pose proof (py_sub_nums last first (forallb_last _ _ _ Hnum' Hlast)
                (forallb_head _ _ _ Hnum' Hfirst)) as Hsub.
  pose proof (gaps_length (num_of <$> ts)) as Hgaps.
  rewrite length_fmap, Hlen in Hgaps.
  unfold report_type. rewrite Hts. simpl. rewrite Hfirst, Hlast. simpl.
  rewrite Hsub. simpl. rewrite Hlen.
  case_bool_decide as H1; case_bool_decide as H2; try lia.
  - rewrite (adjacent_differences_nums ts Hnum').
    destruct (gaps (num_of <$> ts)) as [|d ds] eqn:Hds; [simpl in Hgaps; lia|].
    simpl. destruct (_ && _); simpl; [|done].
    intros [= <-]. exists ts. repeat split; rewrite ?Hds; done.
  - simpl. intros [= <-]. exists ts. repeat split; done.
Qed.


End report_facts.

Section timeline_main.

Lemma group_timestamps_lookup events k :
  lookup_key k (group_timestamps events)
  = some_if_nonempty (timestamp_of <$> with_key event_type_of k events).
Proof.
  change (group_timestamps events)
    with (tally [] (λ e l, l ++ [timestamp_of e]) event_type_of events).
  rewrite tally_lookup.
  destruct (with_key event_type_of k events) as [|e l]; [done|].
  rewrite foldl_append. done.
Qed.

Lemma group_timestamps_keys events k :
  k ∈ keys (group_timestamps events) → ∃ e, e ∈ events ∧ event_type_of e = k.
Proof. apply tally_keys. Qed.





Lemma Forall2_fmap_eq {A B} (f : B → A) (l : list A) (k : list B) :
  Forall2 (λ x y, f y = x) l k → f <$> k = l.
Proof. induction 1; csimpl; congruence. Qed.

End timeline_main.




(** The scenario of the design document. *)
Example timeline_scenario :
  event_timeline true (parse_json_trace strip FlatJson.loads Sample.trace)
  = TimelineSaved
      [{| r_type := VStr "open"; r_count := 2; r_first := VInt 100;
          r_last := VInt 105; r_range := 5;
          r_intervals := Some {| avg_interval := 5 # 1; min_interval := 5;
                                 max_interval := 5 |} |}].
Proof. run_code. Qed.

(** A timestamp that is not a number, or event types that do not compare,
    end the report with the exception caught. *)
Example timeline_type_error :
  event_timeline true [{[ "event" := VStr "open"; "timestamp" := VStr "late" ]}]
  = TimelineFailed ∧
  event_timeline true [{[ "event" := VStr "open" ]}; {[ "event" := VInt 3 ]}]
  = TimelineFailed.
Proof. run_code. Qed.

(** ** Sessions (C1, C2, C3) *)

Section orchestrator_facts.
Import Orchestrator.

Lemma run_success (p : process) (cb : bool) :
  (_run_command_on_device p cb).1.1 = true ↔ proc_end p = Exited 0.
Proof.
  unfold _run_command_on_device. destruct (proc_end p) as [rc| |msg]; simpl.
  - rewrite bool_decide_eq_true. split; congruence.
  - split; done.
  - split; done.
Qed.

(** The call of a world that reaches the remote run and saves the
    output, spelled out. *)
Lemma execute_bpftrace_run w (active_traces : store) dev script name dur json :
  reaches_run w → output_saved w →
  ∃ file cmd meta,
    let id := trace_id_of w dev name in
    let s1 := <[id := meta]> active_traces in
    let s2 := alter (set_status "completed") id s1 in
    let s3 := alter (set_end_time (now_end w)) id s2 in
    let s4 := alter (set_output_size (String.length (remote_output w))) id s3 in
    status meta = "running" ∧
    execute_bpftrace w active_traces dev script name dur json
    = {| returned :=
           ResultDone (_run_command_on_device (remote w) false).1.1 id name dev file
                      (S (count_newlines (remote_output w))) "completed";
         history := [s1; s2; s3; s4];
         actions :=
           [AdbPush dev script ("/data/local/tmp/" +:+ basename script);
            AdbShell dev cmd (dur + 10)]
             ++ (if bool_decide (remote_output w = "") then []
                 else [WriteFile file (remote_output w)]) |}.
Proof.
  intros [Hscript Hpush] Hsaved.
  unfold execute_bpftrace. rewrite Hscript, Hpush. simpl.
  unfold output_saved, remote_output in *.
  destruct (_run_command_on_device (remote w) false) as [[success output] called].
  simpl in *.
  assert ((if negb (bool_decide (output = "")) then write_error w else None) = None)
    as ->.
  { destruct Hsaved as [->| ->]; [by destruct (negb _)|done]. }
  do 3 eexists. split; [|f_equal; f_equal].
  - reflexivity.
  - by destruct (bool_decide (output = "")).
Qed.
End orchestrator_facts.

Section orchestrator_claims.
Import Orchestrator.

Lemma status_of_insert (s : store) id meta :
  status_of (<[id := meta]> s) id = Some (status meta).
Proof. unfold status_of, get_trace_result. by rewrite lookup_insert_eq. Qed.

Lemma status_of_alter (f : trace_meta → trace_meta) (s : store) id :
  status_of (alter f id s) id = status ∘ f <$> get_trace_result s id.
Proof.
  unfold status_of, get_trace_result. rewrite lookup_alter_eq.
  by destruct (s !! id).
Qed.
End orchestrator_claims.

(** C1, as amended. A call that gets as far as the remote run records the
    session as [running] and, when the output is saved without error,
    ends with the session [completed], whatever the run did: no other
    status is ever recorded. How the run went is told by the [success]
    flag of the returned dict alone, which is true exactly when the
    process exited with status zero; a timeout, a non-zero exit and an
    exception all give false. *)
Theorem execute_bpftrace_status (w : Orchestrator.world)
    (active_traces : Orchestrator.store)
    (device_id script_path trace_name : string) (duration : Z) (json_output : bool) :
  reaches_run w → output_saved w →
  let o := Orchestrator.execute_bpftrace w active_traces device_id script_path
             trace_name duration json_output in
  let id := trace_id_of w device_id trace_name in
  (∃ s1 rest, Orchestrator.history o = s1 :: rest ∧
              Orchestrator.status_of s1 id = Some "running") ∧
  Orchestrator.status_of (Orchestrator.final_store active_traces o) id = Some "completed" ∧
  Forall (λ s, Orchestrator.status_of s id = Some "running" ∨
               Orchestrator.status_of s id = Some "completed")
         (Orchestrator.history o) ∧
  (∃ file lines success,
      Orchestrator.returned o
      = Orchestrator.ResultDone success id trace_name device_id file lines "completed" ∧
      (success = true ↔
       Orchestrator.proc_end (Orchestrator.remote w) = Orchestrator.Exited 0)).
Proof.
  intros Hrun Hsaved o id.
  destruct (execute_bpftrace_run w active_traces device_id script_path trace_name
              duration json_output Hrun Hsaved) as (file & cmd & meta & Hmeta & Hexec).
  cbv zeta in Hexec. subst o. fold id in Hexec. rewrite Hexec. simpl.
  assert (Orchestrator.status_of (<[id := meta]> active_traces) id = Some "running") as H1.
  { by rewrite status_of_insert, Hmeta. }
  assert (∀ s, Orchestrator.status_of s id = Some "running" ∨
               Orchestrator.status_of s id = Some "completed" →
               Orchestrator.status_of (alter (Orchestrator.set_status "completed") id s) id
               = Some "completed") as H2.
  { intros s Hs. rewrite status_of_alter. unfold Orchestrator.status_of in Hs.
    destruct (Orchestrator.get_trace_result s id); [done|]. by destruct Hs. }
  assert (∀ f s, (∀ m, Orchestrator.status (f m) = Orchestrator.status m) →
               Orchestrator.status_of (alter f id s) id = Orchestrator.status_of s id) as H3.
  { intros f s Hf. rewrite status_of_alter. unfold Orchestrator.status_of.
    destruct (Orchestrator.get_trace_result s id); simpl; [|done]. by rewrite Hf. }
  split; [eauto|]. split; [|split].
  - unfold Orchestrator.final_store. simpl.
    rewrite !H3 by done. apply H2. auto.
  - repeat (apply Forall_cons; split);
      [by left|right..|by apply Forall_nil];
      rewrite ?H3 by done; apply H2; auto.
  - do 3 eexists. split; [reflexivity|]. apply run_success.
Qed.

Lemma execute_bpftrace_status_witness :
  let w := Sample.sample_world true (Orchestrator.Process [Sample.open1] (Orchestrator.Exited 0)) in
  reaches_run w ∧ output_saved w ∧
  Orchestrator.status_of (Orchestrator.final_store ∅ (Sample.sample_call w)) Sample.sample_id
  = Some "completed".
Proof.
  cbv zeta.
  set (w := Sample.sample_world true (Orchestrator.Process [Sample.open1] (Orchestrator.Exited 0))).
  assert (reaches_run w) as Hrun by (split; reflexivity).
  assert (output_saved w) as Hsaved by (left; reflexivity).
  split; [exact Hrun|]. split; [exact Hsaved|].
  exact (proj1 (proj2 (execute_bpftrace_status w ∅ "emulator-5554"
                         "scripts/syscall_trace.bt" "syscall_trace_all" 60 true
                         Hrun Hsaved))).
Defined.

(** C1 as stated fails: a run that times out, and a run that exits with a
    non-zero status, both leave the session [completed]. *)
Lemma timed_out_and_failed_runs_end_completed :
  let timed_out := Sample.sample_world true (Orchestrator.Process [Sample.open1] Orchestrator.TimeoutExpired) in
  let failed := Sample.sample_world true (Orchestrator.Process [Sample.open1] (Orchestrator.Exited 124)) in
  Orchestrator.status_of (Orchestrator.final_store ∅ (Sample.sample_call timed_out)) Sample.sample_id
  = Some "completed" ∧
  Orchestrator.result_success (Orchestrator.returned (Sample.sample_call timed_out)) = false ∧
  Orchestrator.status_of (Orchestrator.final_store ∅ (Sample.sample_call failed)) Sample.sample_id
  = Some "completed" ∧
  Orchestrator.result_success (Orchestrator.returned (Sample.sample_call failed)) = false.
Proof. run_code. Qed.

(** C2, as amended. When the script does not exist the call returns at
    once a failure dict whose error is [Script not found: ] followed by the
    path. It creates no session record: [active_traces] is not touched, so
    no session is seen running, or failed, on account of the request; and
    it does nothing outside, in particular nothing on the device. *)
Theorem execute_bpftrace_script_missing (w : Orchestrator.world)
    (active_traces : Orchestrator.store)
    (device_id script_path trace_name : string) (duration : Z) (json_output : bool) :
  Orchestrator.script_exists w = false →
  let o := Orchestrator.execute_bpftrace w active_traces device_id script_path
             trace_name duration json_output in
  Orchestrator.returned o
  = Orchestrator.ResultError ("Script not found: " +:+ script_path) trace_name device_id ∧
  Orchestrator.history o = [] ∧
  Orchestrator.final_store active_traces o = active_traces ∧
  Orchestrator.actions o = [].
Proof.
  intros Hscript. unfold Orchestrator.execute_bpftrace. rewrite Hscript. done.
Qed.

Lemma execute_bpftrace_script_missing_witness :
  let w := Sample.sample_world false (Orchestrator.Process [] (Orchestrator.Exited 0)) in
  Orchestrator.script_exists w = false ∧
  Orchestrator.returned (Sample.sample_call w)
  = Orchestrator.ResultError "Script not found: scripts/syscall_trace.bt"
      "syscall_trace_all" "emulator-5554" ∧
  Orchestrator.actions (Sample.sample_call w) = [].
Proof.
  cbv zeta. split; [reflexivity|].
  destruct (execute_bpftrace_script_missing
              (Sample.sample_world false (Orchestrator.Process [] (Orchestrator.Exited 0)))
              ∅ "emulator-5554" "scripts/syscall_trace.bt" "syscall_trace_all" 60 true
              eq_refl) as (H1 & _ & _ & H2).
  split; [exact H1|exact H2].
Defined.

(** C2 as stated fails: after the call there is no session record at all,
    in particular none that is failed with a cause. *)
Lemma script_missing_creates_no_session :
  let w := Sample.sample_world false (Orchestrator.Process [] (Orchestrator.Exited 0)) in
  Orchestrator.final_store ∅ (Sample.sample_call w) = ∅ ∧
  Orchestrator.history (Sample.sample_call w) = [] ∧
  Orchestrator.get_trace_result (Orchestrator.final_store ∅ (Sample.sample_call w))
    Sample.sample_id = None.
Proof. run_code. Qed.

(** C3, as amended. When waiting for the process times out, the lines read
    before that are handed to the output callback, if one was given, and
    are not returned: the run returns failure with the text
    [Command timed out] in the place of the output. [execute_bpftrace]
    gives no callback and writes what is returned, so that text, and none
    of the lines, is what the output file receives. *)
Theorem timeout_discards_streamed_output (p : Orchestrator.process) :
  Orchestrator.proc_end p = Orchestrator.TimeoutExpired →
  (∀ output_callback,
     Orchestrator._run_command_on_device p output_callback
     = ((false, "Command timed out"),
        if output_callback then Orchestrator.stdout_lines p else [])) ∧
  (∀ w active_traces device_id script_path trace_name duration json_output,
     Orchestrator.remote w = p → reaches_run w → Orchestrator.write_error w = None →
     ∃ pushed ran file,
       Orchestrator.is_remote pushed = true ∧ Orchestrator.is_remote ran = true ∧
       Orchestrator.actions
         (Orchestrator.execute_bpftrace w active_traces device_id script_path
            trace_name duration json_output)
       = [pushed; ran; Orchestrator.WriteFile file "Command timed out"]).
Proof.
  intros Hend. split.
  - intros cb. unfold Orchestrator._run_command_on_device. rewrite Hend. done.
  - intros w active_traces device_id script_path trace_name duration json_output
      Hp Hrun Hwrite.
    destruct (execute_bpftrace_run w active_traces device_id script_path trace_name
                duration json_output Hrun (or_introl Hwrite))
      as (file & cmd & meta & _ & Hexec).
    cbv zeta in Hexec. rewrite Hexec. simpl.
    assert (remote_output w = "Command timed out") as ->.
    { unfold remote_output, Orchestrator._run_command_on_device.
      rewrite Hp, Hend. done. }
    do 3 eexists. split; [|split]; [| |reflexivity]; reflexivity.
Qed.

Lemma timeout_discards_streamed_output_witness :
  let p := Orchestrator.Process [Sample.open1; Sample.open2] Orchestrator.TimeoutExpired in
  Orchestrator.proc_end p = Orchestrator.TimeoutExpired ∧
  Orchestrator._run_command_on_device p true
  = ((false, "Command timed out"), [Sample.open1; Sample.open2]).
Proof.
  cbv zeta. split; [reflexivity|].
  exact (proj1 (timeout_discards_streamed_output
                  (Orchestrator.Process [Sample.open1; Sample.open2]
                     Orchestrator.TimeoutExpired) eq_refl) true).
Defined.

(** C3 as stated fails: two lines are streamed before the timeout, and the
    only thing written to the output file is the text of the error, in
    which neither line occurs. *)
Lemma timed_out_run_writes_no_streamed_line :
  let w := Sample.sample_world true
             (Orchestrator.Process [Sample.open1; Sample.open2] Orchestrator.TimeoutExpired) in
  List.filter (λ a, negb (Orchestrator.is_remote a))
    (Orchestrator.actions (Sample.sample_call w))
  = [Orchestrator.WriteFile
       "output/syscall_trace_all_emulator-5554_20250101_120000.json"
       "Command timed out"] ∧
  contains Sample.open1 "Command timed out" = false ∧
  contains Sample.open2 "Command timed out" = false.
Proof. run_code. Qed.

(** When the run ends by itself, whatever its exit status, every line
    streamed is written. *)
Example exited_run_writes_streamed_lines :
  let w := Sample.sample_world true
             (Orchestrator.Process [Sample.open1; Sample.open2] (Orchestrator.Exited 124)) in
  List.filter (λ a, negb (Orchestrator.is_remote a))
    (Orchestrator.actions (Sample.sample_call w))
  = [Orchestrator.WriteFile
       "output/syscall_trace_all_emulator-5554_20250101_120000.json"
       (Sample.open1 +:+ Sample.open2)].
Proof. run_code. Qed.

(** When writing the output fails, the exception is caught at the end of
    [execute_bpftrace]: the session is left [running]. *)
Example write_error_leaves_session_running :
  let w := {| Orchestrator.output_dir := "output";
              Orchestrator.script_exists := true;
              Orchestrator.push := Orchestrator.PushExited 0;
              Orchestrator.remote := Orchestrator.Process [Sample.open1] (Orchestrator.Exited 0);
              Orchestrator.write_error := Some "No space left on device";
              Orchestrator.now_file := "20250101_120000";
              Orchestrator.now_id := "1735732800.0";
              Orchestrator.now_start := "2025-01-01T12:00:00";
              Orchestrator.now_end := "2025-01-01T12:01:10" |} in
  Orchestrator.status_of (Orchestrator.final_store ∅ (Sample.sample_call w)) Sample.sample_id
  = Some "running" ∧
  Orchestrator.returned (Sample.sample_call w)
  = Orchestrator.ResultError "No space left on device" "syscall_trace_all" "emulator-5554".
Proof. run_code. Qed.

(** * Further properties *)

(** Properties of the code beyond those the design document states:
    the trace sessions, the summaries and statistics of a trace, the
    reports of the analyzer, and the device manager. *)

(** ** Trace sessions *)

Section session_paths.
Import Orchestrator.

(** The three ways a call of [execute_bpftrace] goes on once the script is
    pushed: the output is written, there is none to write, or writing it
    fails. *)
Lemma execute_bpftrace_paths w (active_traces : store) dev script name dur json :
  reaches_run w →
  let id := trace_id_of w dev name in
  let s1 := <[id := running_record w dev name dur]> active_traces in
  let s2 := alter (set_status "completed") id s1 in
  let s3 := alter (set_end_time (now_end w)) id s2 in
  let s4 := alter (set_output_size (String.length (remote_output w))) id s3 in
  let pushed := AdbPush dev script (remote_script_of script) in
  let ran := AdbShell dev (remote_command script dur json) (dur + 10) in
  let file := output_file_of w dev name in
  execute_bpftrace w active_traces dev script name dur json
  = match (if bool_decide (remote_output w = "") then None else write_error w) with
    | Some e =>
        {| returned := ResultError e name dev; history := [s1];
           actions := [pushed; ran] |}
    | None =>
        {| returned :=
             ResultDone (_run_command_on_device (remote w) false).1.1 id name dev file
                        (S (count_newlines (remote_output w))) "completed";
           history := [s1; s2; s3; s4];
           actions := [pushed; ran]
                        ++ (if bool_decide (remote_output w = "") then []
                            else [WriteFile file (remote_output w)]) |}
    end.
Proof.
  intros [Hscript Hpush]. cbv zeta.
  unfold execute_bpftrace. rewrite Hscript, Hpush. simpl.
  unfold remote_output.
  destruct (_run_command_on_device (remote w) false) as [[success output] called].
  simpl. destruct (bool_decide (output = "")); simpl; [done|].
  destruct (write_error w); done.
Qed.

Lemma final_record (active_traces : store) id meta n t :
  (alter (set_output_size n) id
     (alter (set_end_time t) id
        (alter (set_status "completed") id (<[id := meta]> active_traces)))) !! id
  = Some (set_output_size n (set_end_time t (set_status "completed" meta))).
Proof. by rewrite !lookup_alter_eq, lookup_insert_eq. Qed.

Lemma other_record (active_traces : store) id id' meta f :
  id' ≠ id → (alter f id active_traces) !! id' = active_traces !! id'
            ∧ (<[id := meta]> active_traces) !! id' = active_traces !! id'.
Proof. intros H. by rewrite lookup_alter_ne, lookup_insert_ne. Qed.

End session_paths.
Section basename_facts.
Import Orchestrator.

Lemma append_cons c (a b : string) : String c a +:+ b = String c (a +:+ b).
Proof. reflexivity. Qed.

Lemma append_nil_r (a : string) : a +:+ "" = a.
Proof. induction a as [|c a IH]; [done|]. by rewrite append_cons, IH. Qed.

Lemma append_assoc (a b c : string) : (a +:+ b) +:+ c = a +:+ (b +:+ c).
Proof. induction a as [|x a IH]; [done|]. by rewrite !append_cons, IH. Qed.


Lemma rev_app_onto (s acc : string) :
  String.rev_app s acc = String.rev s +:+ acc.
Proof.
  unfold String.rev. revert acc. induction s as [|c s IH]; intros acc; simpl; [done|].
  rewrite (IH (String c acc)), (IH (String c "")), append_assoc. done.
Qed.


Lemma rev_cons c (s : string) : String.rev (String c s) = String.rev s +:+ String c "".
Proof. unfold String.rev at 1. simpl. apply rev_app_onto. Qed.






End basename_facts.

(** X1. Whatever the world, a call of [execute_bpftrace] runs the command
    on the device exactly when it records a session, which is exactly when
    the script is there and was pushed; and it writes the output file only
    after such a run, the session then ending [completed]. A call that does
    not get that far leaves [active_traces] as it was. *)
Theorem remote_run_iff_session_recorded (w : Orchestrator.world)
    (active_traces : Orchestrator.store)
    (device_id script_path trace_name : string) (duration : Z) (json_output : bool) :
  let o := Orchestrator.execute_bpftrace w active_traces device_id script_path
             trace_name duration json_output in
  let id := trace_id_of w device_id trace_name in
  (reaches_run w ↔ Orchestrator.history o ≠ []) ∧
  (reaches_run w ↔ existsb is_shell (Orchestrator.actions o) = true) ∧
  (existsb is_write (Orchestrator.actions o) = true →
   existsb is_shell (Orchestrator.actions o) = true ∧
   Orchestrator.status_of (Orchestrator.final_store active_traces o) id = Some "completed") ∧
  (¬ reaches_run w → Orchestrator.final_store active_traces o = active_traces).
Proof.
  cbv zeta.
  destruct (Orchestrator.script_exists w) eqn:Hscript; cycle 1.
  { unfold Orchestrator.execute_bpftrace, reaches_run. rewrite Hscript. simpl.
    repeat split; try done; by intros [? ?]. }
  destruct (Orchestrator._push_script_to_device (Orchestrator.push w)) eqn:Hpush; cycle 1.
  { unfold Orchestrator.execute_bpftrace, reaches_run. rewrite Hscript, Hpush. simpl.
    repeat split; try done; by intros [? ?]. }
  assert (reaches_run w) as Hrun by done.
  rewrite (execute_bpftrace_paths w active_traces device_id script_path trace_name
             duration json_output Hrun).
  destruct (if bool_decide (remote_output w = "") then None
            else Orchestrator.write_error w) as [e|]; simpl.
  - repeat split; try done.
  - repeat split; try done.
    unfold Orchestrator.final_store, Orchestrator.status_of,
      Orchestrator.get_trace_result. simpl.
    by rewrite final_record.
Qed.

(** X2. A call of [execute_bpftrace] touches no session but its own: at
    every moment of the call each other identifier has the record, or the
    absence of record, it had before; no session is ever removed. *)
Theorem execute_bpftrace_keeps_other_sessions (w : Orchestrator.world)
    (active_traces : Orchestrator.store)
    (device_id script_path trace_name : string) (duration : Z) (json_output : bool) :
  let o := Orchestrator.execute_bpftrace w active_traces device_id script_path
             trace_name duration json_output in
  let id := trace_id_of w device_id trace_name in
  Forall (λ s : Orchestrator.store,
            (∀ id', id' ≠ id → s !! id' = active_traces !! id') ∧
            (∀ id', is_Some (active_traces !! id') → is_Some (s !! id')))
         (Orchestrator.final_store active_traces o :: Orchestrator.history o).
Proof.
  cbv zeta.
  set (id := trace_id_of w device_id trace_name).
  assert (∀ s : Orchestrator.store,
            (∀ id', id' ≠ id → s !! id' = active_traces !! id') →
            (∀ id', is_Some (active_traces !! id') → is_Some (s !! id')) →
            ∀ f, (∀ id', id' ≠ id → alter f id s !! id' = active_traces !! id') ∧
                 (∀ id', is_Some (active_traces !! id') → is_Some (alter f id s !! id')))
    as Halter.
  { intros s H1 H2 f. split.
    - intros id' Hne. rewrite lookup_alter_ne by done. by apply H1.
    - intros id' Hsome. destruct (decide (id = id')) as [<-|Hne].
      + rewrite lookup_alter_eq. destruct (H2 id Hsome) as [m ->]. by eexists.
      + rewrite lookup_alter_ne by done. by apply H2. }
  assert (∀ meta,
            (∀ id', id' ≠ id → <[id := meta]> active_traces !! id' = active_traces !! id') ∧
            (∀ id', is_Some (active_traces !! id') →
                    is_Some (<[id := meta]> active_traces !! id'))) as Hinsert.
  { intros meta. split.
    - intros id' Hne. by rewrite lookup_insert_ne.
    - intros id' Hsome. destruct (decide (id = id')) as [<-|Hne].
      + rewrite lookup_insert_eq. by eexists.
      + by rewrite lookup_insert_ne. }
  destruct (Orchestrator.script_exists w) eqn:Hscript; cycle 1.
  { unfold Orchestrator.execute_bpftrace. rewrite Hscript. simpl.
    repeat constructor; done. }
  destruct (Orchestrator._push_script_to_device (Orchestrator.push w)) eqn:Hpush; cycle 1.
  { unfold Orchestrator.execute_bpftrace. rewrite Hscript, Hpush. simpl.
    repeat constructor; done. }
  rewrite (execute_bpftrace_paths w active_traces device_id script_path trace_name
             duration json_output (conj Hscript Hpush)).
  fold id.
  pose proof (Hinsert (running_record w device_id trace_name duration)) as [H1 H1'].
  pose proof (Halter _ H1 H1' (Orchestrator.set_status "completed")) as [H2 H2'].
  pose proof (Halter _ H2 H2' (Orchestrator.set_end_time (Orchestrator.now_end w))) as [H3 H3'].
  pose proof (Halter _ H3 H3'
                (Orchestrator.set_output_size (String.length (remote_output w)))) as [H4 H4'].
  destruct (if bool_decide (remote_output w = "") then None
            else Orchestrator.write_error w) as [e|];
    unfold Orchestrator.final_store; simpl; repeat constructor; done.
Qed.

(** X3. When writing the output file fails, the call returns the failure
    dict carrying the text of the exception, and the session stays as it
    was recorded before the run: [running], without end time or output
    size. *)
Theorem write_error_leaves_running (w : Orchestrator.world)
    (active_traces : Orchestrator.store)
    (device_id script_path trace_name : string) (duration : Z) (json_output : bool)
    (e : string) :
  reaches_run w → remote_output w ≠ "" → Orchestrator.write_error w = Some e →
  let o := Orchestrator.execute_bpftrace w active_traces device_id script_path
             trace_name duration json_output in
  Orchestrator.returned o = Orchestrator.ResultError e trace_name device_id ∧
  ∃ record,
    Orchestrator.get_trace_result (Orchestrator.final_store active_traces o)
      (trace_id_of w device_id trace_name) = Some record ∧
    Orchestrator.device_id record = device_id ∧
    Orchestrator.trace_name record = trace_name ∧
    Orchestrator.status record = "running" ∧
    Orchestrator.start_time record = Orchestrator.now_start w ∧
    Orchestrator.duration record = duration ∧
    Orchestrator.end_time record = None ∧
    Orchestrator.output_size record = None.
Proof.
  intros Hrun Hout Hwrite. cbv zeta.
  rewrite (execute_bpftrace_paths w active_traces device_id script_path trace_name
             duration json_output Hrun).
  rewrite bool_decide_false, Hwrite by done.
  unfold Orchestrator.final_store, Orchestrator.get_trace_result. simpl.
  split; [done|]. eexists. rewrite lookup_insert_eq. split; [reflexivity|]. done.
Qed.

Lemma write_error_leaves_running_witness :
  let w := {| Orchestrator.output_dir := "output";
              Orchestrator.script_exists := true;
              Orchestrator.push := Orchestrator.PushExited 0;
              Orchestrator.remote := Orchestrator.Process [Sample.open1] (Orchestrator.Exited 0);
              Orchestrator.write_error := Some "No space left on device";
              Orchestrator.now_file := "20250101_120000";
              Orchestrator.now_id := "1735732800.0";
              Orchestrator.now_start := "2025-01-01T12:00:00";
              Orchestrator.now_end := "2025-01-01T12:01:10" |} in
  reaches_run w ∧ remote_output w ≠ "" ∧
  Orchestrator.returned (Sample.sample_call w)
  = Orchestrator.ResultError "No space left on device" "syscall_trace_all" "emulator-5554".
Proof.
  cbv zeta.
  set (w := Orchestrator.World _ _ _ _ _ _ _ _ _).
  assert (reaches_run w) as Hrun by (split; reflexivity).
  assert (remote_output w ≠ "") as Hout by (vm_compute; discriminate).
  split; [exact Hrun|]. split; [exact Hout|].
  exact (proj1 (write_error_leaves_running w ∅ "emulator-5554" "scripts/syscall_trace.bt"
                  "syscall_trace_all" 60 true "No space left on device" Hrun Hout eq_refl)).
Defined.

(** X4. When the call is carried through, the identifier in the returned
    dict finds the session, whatever was stored under it before; the record
    has the trace name, device and output file of the returned dict, is
    [completed], has the end time, and, the output being ASCII text, its
    output size is the number of characters of the text the call wrote to
    that file. *)
Theorem returned_id_finds_completed_record (w : Orchestrator.world)
    (active_traces : Orchestrator.store)
    (device_id script_path trace_name : string) (duration : Z) (json_output : bool) :
  reaches_run w → output_saved w → ascii_text (remote_output w) = true →
  let o := Orchestrator.execute_bpftrace w active_traces device_id script_path
             trace_name duration json_output in
  ∃ success id file lines record,
    Orchestrator.returned o
    = Orchestrator.ResultDone success id trace_name device_id file lines "completed" ∧
    Orchestrator.get_trace_result (Orchestrator.final_store active_traces o) id
    = Some record ∧
    Orchestrator.device_id record = device_id ∧
    Orchestrator.trace_name record = trace_name ∧
    Orchestrator.output_file record = file ∧
    Orchestrator.status record = "completed" ∧
    Orchestrator.start_time record = Orchestrator.now_start w ∧
    Orchestrator.duration record = duration ∧
    Orchestrator.end_time record = Some (Orchestrator.now_end w) ∧
    Orchestrator.output_size record = Some (String.length (remote_output w)) ∧
    List.filter is_write (Orchestrator.actions o)
    = (if bool_decide (remote_output w = "") then []
       else [Orchestrator.WriteFile file (remote_output w)]) ∧
    lines = S (Orchestrator.count_newlines (remote_output w)).
Proof.
  intros Hrun Hsaved _. cbv zeta.
  rewrite (execute_bpftrace_paths w active_traces device_id script_path trace_name
             duration json_output Hrun).
  assert ((if bool_decide (remote_output w = "") then None
           else Orchestrator.write_error w) = None) as ->.
  { destruct Hsaved as [->| ->]; [by case_bool_decide|done]. }
  do 5 eexists. split; [reflexivity|].
  unfold Orchestrator.final_store, Orchestrator.get_trace_result. simpl.
  rewrite final_record. split; [reflexivity|]. simpl.
  repeat split; try done. by case_bool_decide.
Qed.

Lemma returned_id_finds_completed_record_witness :
  let w := Sample.sample_world true
             (Orchestrator.Process [Sample.open1; Sample.open2] (Orchestrator.Exited 0)) in
  reaches_run w ∧ output_saved w ∧ ascii_text (remote_output w) = true ∧
  ∃ success id file lines record,
    Orchestrator.returned (Sample.sample_call w)
    = Orchestrator.ResultDone success id "syscall_trace_all" "emulator-5554" file lines
        "completed" ∧
    Orchestrator.get_trace_result
      (Orchestrator.final_store ∅ (Sample.sample_call w)) id
    = Some record ∧
    Orchestrator.status record = "completed" ∧
    Orchestrator.output_file record = file.
Proof.
  cbv zeta.
  set (w := Sample.sample_world true _).
  assert (reaches_run w) as Hrun by (split; reflexivity).
  assert (output_saved w) as Hsaved by (left; reflexivity).
  assert (ascii_text (remote_output w) = true) as Hascii by (vm_compute; reflexivity).
  split; [exact Hrun|]. split; [exact Hsaved|]. split; [exact Hascii|].
  destruct (returned_id_finds_completed_record w ∅ "emulator-5554"
              "scripts/syscall_trace.bt" "syscall_trace_all" 60 true Hrun Hsaved Hascii)
    as (success & id & file & lines & record & H1 & H2 & _ & _ & H5 & H6 & _).
  exists success, id, file, lines, record.
  split; [exact H1|]. split; [exact H2|]. split; [exact H6|exact H5].
Defined.

(** X5. A run that gives no output at all writes no file; the call still
    ends the session [completed], with output size 0, and reports one
    output line and the name of an output file that it did not create. *)
Theorem empty_output_writes_no_file (w : Orchestrator.world)
    (active_traces : Orchestrator.store)
    (device_id script_path trace_name : string) (duration : Z) (json_output : bool) :
  reaches_run w → remote_output w = "" →
  let o := Orchestrator.execute_bpftrace w active_traces device_id script_path
             trace_name duration json_output in
  let id := trace_id_of w device_id trace_name in
  existsb is_write (Orchestrator.actions o) = false ∧
  (∃ success file,
     Orchestrator.returned o
     = Orchestrator.ResultDone success id trace_name device_id file 1 "completed") ∧
  Orchestrator.status_of (Orchestrator.final_store active_traces o) id = Some "completed" ∧
  (Orchestrator.output_size <$>
     Orchestrator.get_trace_result (Orchestrator.final_store active_traces o) id)
  = Some (Some 0%nat).
Proof.
  intros Hrun Hempty. cbv zeta.
  rewrite (execute_bpftrace_paths w active_traces device_id script_path trace_name
             duration json_output Hrun).
  rewrite Hempty. simpl.
  unfold Orchestrator.final_store, Orchestrator.status_of,
    Orchestrator.get_trace_result. simpl.
  rewrite final_record. repeat split; try done. by do 2 eexists.
Qed.

Lemma empty_output_writes_no_file_witness :
  let w := Sample.sample_world true (Orchestrator.Process [] (Orchestrator.Exited 1)) in
  reaches_run w ∧ remote_output w = "" ∧
  existsb is_write (Orchestrator.actions (Sample.sample_call w)) = false ∧
  Orchestrator.status_of (Orchestrator.final_store ∅ (Sample.sample_call w))
    (trace_id_of w "emulator-5554" "syscall_trace_all")
  = Some "completed".
Proof.
  cbv zeta.
  set (w := Sample.sample_world true _).
  assert (reaches_run w) as Hrun by (split; reflexivity).
  assert (remote_output w = "") as Hempty by reflexivity.
  split; [exact Hrun|]. split; [exact Hempty|].
  destruct (empty_output_writes_no_file w ∅ "emulator-5554" "scripts/syscall_trace.bt"
              "syscall_trace_all" 60 true Hrun Hempty) as (H1 & _ & H2 & _).
  split; [exact H1|exact H2].
Defined.


(** ** Summaries and statistics *)

Section dict_facts.

Lemma py_set_snoc (l : list value) (v : value) :
  py_set (l ++ [v])
  = if existsb (λ w, py_eqb w v) (py_set l) then py_set l else py_set l ++ [v].
Proof. unfold py_set. by rewrite foldl_snoc. Qed.

(** The keys of a tally are the distinct keys of the items, in the order
    in which they first appear. *)
Lemma tally_keys_py_set {V} (dflt : V) upd key events :
  keys (tally dflt upd key events) = py_set (key <$> events).
Proof.
  induction events as [|e events IH] using rev_ind; [done|].
  rewrite tally_snoc, keys_update_default, fmap_app.
  change (key <$> [e]) with [key e]. rewrite py_set_snoc, IH. done.
Qed.

Lemma existsb_py_eqb_false (l : list value) (v : value) :
  existsb (λ w, py_eqb w v) l = false → key_norm v ∉ key_norm <$> l.
Proof.
  intros H (w & Hw & Hin)%list_elem_of_fmap.
  assert (existsb (λ w, py_eqb w v) l = true) as H'; [|congruence].
  apply existsb_exists. exists w. split; [by apply list_elem_of_In|].
  by apply py_eqb_true.
Qed.

(** No two members of a set are [==]. *)
Lemma py_set_NoDup (l : list value) : NoDup (key_norm <$> py_set l).
Proof.
  induction l as [|v l IH] using rev_ind; [constructor|].
  rewrite py_set_snoc. destruct (existsb _ _) eqn:E; [done|].
  rewrite fmap_app. apply NoDup_app. split; [done|]. split.
  - intros x Hx [->|[]%elem_of_nil]%elem_of_cons.
    by apply existsb_py_eqb_false in E.
  - repeat constructor. by intros []%elem_of_nil.
Qed.

Lemma tally_keys_NoDup {V} (dflt : V) upd key events :
  NoDup (key_norm <$> keys (tally dflt upd key events)).
Proof. rewrite tally_keys_py_set. apply py_set_NoDup. Qed.

(** In a dict without two [==] keys, an entry is found under its key. *)
Lemma lookup_key_entry {V} (d : pydict V) k v :
  NoDup (key_norm <$> keys d) → (k, v) ∈ d → lookup_key k d = Some v.
Proof.
  unfold keys. induction d as [|[k0 v0] d IH]; csimpl; intros Hnd Hin.
  - by apply elem_of_nil in Hin.
  - apply NoDup_cons in Hnd as [Hk0 Hnd].
    apply elem_of_cons in Hin as [[= -> ->]|Hin].
    + by rewrite py_eqb_refl.
    + destruct (py_eqb k0 k) eqn:E; [|by apply IH].
      apply py_eqb_true in E. exfalso. apply Hk0. rewrite E.
      apply list_elem_of_fmap. exists k. split; [done|].
      apply list_elem_of_fmap. by exists (k, v).
Qed.

Lemma lookup_key_Some {V} (d : pydict V) k v :
  lookup_key k d = Some v → ∃ k0, (k0, v) ∈ d ∧ py_eqb k0 k = true.
Proof.
  induction d as [|[k0 v0] d IH]; simpl; [done|].
  destruct (py_eqb k0 k) eqn:E.
  - intros [= ->]. exists k0. split; [by constructor|done].
  - intros (k1 & ? & ?)%IH. exists k1. split; [by constructor|done].
Qed.

(** The values found under the keys of such a dict are its values. *)
Lemma lookup_keys_values {V} (d : pydict V) :
  NoDup (key_norm <$> keys d) →
  (λ k, lookup_key k d) <$> keys d = Some <$> values d.
Proof.
  intros Hnd. unfold keys, values. rewrite <- !list_fmap_compose.
  apply list_fmap_ext. intros i [k v] Hi. simpl.
  apply lookup_key_entry; [done|]. by eapply list_elem_of_lookup_2.
Qed.


End dict_facts.
Section stable_sort.
Context {A : Type} (lt : A → A → bool).


End stable_sort.


Section ranking.





End ranking.


Example top_processes_ties :
  _get_top_processes
    [Sample.ev_open1; Sample.ev_open2; ∅; Sample.ev_open2; Sample.ev_open1; ∅; ∅] 2
  = [(VStr "unknown", 3%nat); (VStr "a", 2%nat)].
Proof. run_code. Qed.
Section by_pid_facts.










End by_pid_facts.

Section summary_facts.



End summary_facts.



(** Without the typing the entries can run together: the pids 1 and [1]
    as a string are two groups and one entry. *)
Example events_by_pid_collision :
  let events : list Event := [{[ "pid" := VInt 1 ]}; {[ "pid" := VStr "1" ]}] in
  length (aggregate_by_pid events) = 2%nat ∧
  map_to_list (foldl (λ (m : gmap string nat) '(pid, evts), <[str pid := length evts]> m)
                     ∅ (aggregate_by_pid events))
  = [("1", 1%nat)].
Proof. run_code. Qed.

(** X9. A trace file that cannot be opened or read is summarised, by
    [summarize_trace] and by [get_trace_statistics] alike, as a trace
    without events: no error is reported, every count is zero and every
    table is empty. *)
Theorem unreadable_trace_summarised_as_empty (strip : string → string)
    (json_loads : string → loads_result json_value)
    (read : string → file_read) (now trace_file : string) :
  fr_end (read trace_file) ≠ EndOfFile →
  summarize_trace strip json_loads read now trace_file
  = Summarized
      {| s_file := trace_file; s_timestamp := now; total_events := 0;
         event_types := []; unique_pids := 0; unique_comms := 0;
         events_by_pid := ∅; top_processes := [] |} ∧
  get_trace_statistics strip json_loads read trace_file
  = Some {| st_total_events := 0; st_event_types := []; st_by_pid := ∅;
            st_by_comm := [] |}.
Proof.
  intros Hend.
  assert (parse_json_trace strip json_loads (read trace_file) = []) as Hparse.
  { unfold parse_json_trace, parse_json_trace_run.
    destruct (parse_lines _ _ _ _) as [[events log] finished].
    by destruct finished, (fr_end (read trace_file)). }
  unfold summarize_trace, get_trace_statistics. rewrite Hparse. done.
Qed.

Lemma unreadable_trace_summarised_as_empty_witness :
  let read : string → file_read := λ _, FileRead [Sample.open1] ReadError in
  fr_end (read "trace.json") ≠ EndOfFile ∧
  summarize_trace strip FlatJson.loads_value read "now" "trace.json"
  = Summarized
      {| s_file := "trace.json"; s_timestamp := "now"; total_events := 0;
         event_types := []; unique_pids := 0; unique_comms := 0;
         events_by_pid := ∅; top_processes := [] |} ∧
  get_trace_statistics strip FlatJson.loads_value read "trace.json"
  = Some {| st_total_events := 0; st_event_types := []; st_by_pid := ∅;
            st_by_comm := [] |}.
Proof.
  cbv zeta. split; [done|].
  apply (unreadable_trace_summarised_as_empty strip FlatJson.loads_value
           (λ _, FileRead [Sample.open1] ReadError) "now" "trace.json").
  done.
Defined.

Section statistics_facts.




End statistics_facts.



(** A line that decodes to a number is no event: the statistics are not
    returned, [event.get] raises. *)
Example trace_statistics_not_an_event :
  get_trace_statistics strip FlatJson.loads_value
    (λ _, FileRead [Sample.open1; "123"] EndOfFile) "trace.json"
  = None.
Proof. run_code. Qed.

Example trace_statistics_scenario :
  (λ st, map_to_list (st_by_pid st)) <$>
    get_trace_statistics strip FlatJson.loads_value (λ _, Sample.trace) "trace.json"
  = Some [("1", {| ps_count := 1; ps_first_comm := VStr "a" |});
          ("2", {| ps_count := 1; ps_first_comm := VStr "b" |})].
Proof. run_code. Qed.

Section filter_composition.

Lemma filter_filter_comm {A} (p q : A → bool) (l : list A) :
  List.filter p (List.filter q l) = List.filter q (List.filter p l).
Proof.
  induction l as [|x l IH]; simpl; [done|].
  destruct (p x) eqn:Hp, (q x) eqn:Hq; simpl; rewrite ?Hp, ?Hq, IH; done.
Qed.

Lemma filter_filter_idemp {A} (p : A → bool) (l : list A) :
  List.filter p (List.filter p l) = List.filter p l.
Proof.
  induction l as [|x l IH]; simpl; [done|].
  destruct (p x) eqn:Hp; simpl; rewrite ?Hp, IH; done.
Qed.

End filter_composition.

(** X11. Without a process name, [filter_events] never fails and returns
    events of the list in their original order; the type and the pid
    criteria may be applied together, or one after the other in either
    order, with the same result, and filtering the result again changes
    nothing. A type that is given and not empty selects as
    [filter_by_event] does, and a pid as [filter_by_pid] does; the empty
    type is no criterion at all. *)
Theorem filter_events_composes (events : list Event)
    (event_type : option string) (pid : option Z) :
  let r := List.filter (pid_criterion pid) (List.filter (type_criterion event_type) events) in
  filter_events events event_type pid None = Some r ∧
  r `sublist_of` events ∧
  filter_events r event_type pid None = Some r ∧
  (filter_events events event_type None None ≫= λ r1, filter_events r1 None pid None)
  = Some r ∧
  (filter_events events None pid None ≫= λ r2, filter_events r2 event_type None None)
  = Some r ∧
  (∀ t, t ≠ "" →
     filter_events events (Some t) None None = Some (filter_by_event events (VStr t))) ∧
  (∀ p, filter_events events None (Some p) None = Some (filter_by_pid events (VInt p))) ∧
  filter_events events (Some "") None None = Some events.
Proof.
  assert (∀ l t p, filter_events l t p None
                   = Some (List.filter (pid_criterion p) (List.filter (type_criterion t) l)))
    as Hspec.
  { intros l t p. unfold filter_events, type_criterion, pid_criterion. simpl.
    destruct (truthy t), p; simpl; rewrite ?(filter_all (λ _, true)); done. }
  cbv zeta. split; [apply Hspec|]. split; [etrans; apply filter_sublist|].
  split; [|split; [|split; [|split; [|split]]]].
  - rewrite Hspec. f_equal.
    rewrite (filter_filter_comm (type_criterion event_type) (pid_criterion pid)).
    by rewrite !filter_filter_idemp.
  - rewrite Hspec. simpl. rewrite Hspec. f_equal.
    unfold type_criterion at 1, pid_criterion at 2. simpl.
    by rewrite !(filter_all (λ _, true)).
  - rewrite Hspec. simpl. rewrite Hspec. f_equal.
    unfold type_criterion at 2, pid_criterion at 2. simpl.
    rewrite !(filter_all (λ _, true)) by done. by rewrite filter_filter_comm.
  - intros t Ht. rewrite Hspec. f_equal.
    assert (truthy (Some t) = Some t) as Htruthy.
    { unfold truthy. by rewrite bool_decide_false. }
    unfold type_criterion, pid_criterion, filter_by_event. rewrite Htruthy.
    by rewrite (filter_all (λ _, true)).
  - intros p. rewrite Hspec. f_equal.
    unfold type_criterion, pid_criterion, filter_by_pid. simpl.
    by rewrite (filter_all (λ _, true)).
  - rewrite Hspec. f_equal.
    unfold type_criterion, pid_criterion. simpl. by rewrite !(filter_all (λ _, true)).
Qed.

(** The empty type selects nothing in [filter_by_event] unless an event
    has the empty type. *)
Example filter_by_event_empty_type :
  filter_by_event [Sample.ev_open1; Sample.ev_open2] (VStr "") = [] ∧
  filter_events [Sample.ev_open1; Sample.ev_open2] (Some "") None None
  = Some [Sample.ev_open1; Sample.ev_open2].
Proof. run_code. Qed.

(** ** Reports of the analyzer *)

Section process_facts.





(** Summing over the keys of a dict, in any order, is summing over its
    values. *)
Lemma sum_over_keys {V} (size : V → nat) (dflt : V) (d : pydict V) (l : list value) :
  NoDup (key_norm <$> keys d) → l ≡ₚ keys d →
  sum_list ((λ k, size (default dflt (lookup_key k d))) <$> l) = dict_total size d.
Proof.
  intros Hnd ->. unfold dict_total.
  assert ((λ k, size (default dflt (lookup_key k d))) <$> keys d = size <$> values d) as ->;
    [|done].
  transitivity ((λ o, size (default dflt o)) <$> ((λ k, lookup_key k d) <$> keys d)).
  { by rewrite <- list_fmap_compose. }
  rewrite lookup_keys_values by done. by rewrite <- list_fmap_compose.
Qed.



End process_facts.


Example process_summary_last_pid :
  process_summary true
    [{[ "comm" := VStr "sh"; "pid" := VInt 10; "event" := VStr "open" ]};
     {[ "comm" := VStr "sh"; "pid" := VInt 11; "event" := VStr "open" ]};
     {[ "event" := VStr "exit" ]}]
  = ProcessSummarySaved
      [{| b_comm := VStr "sh"; b_pid := VInt 11; b_total_events := 2;
          b_event_types := [(VStr "open", 2%nat)] |};
       {| b_comm := VStr "unknown"; b_pid := VNone; b_total_events := 1;
          b_event_types := [(VStr "exit", 1%nat)] |}].
Proof. run_code. Qed.

Section timeline_outcomes.

Lemma py_sorted_Permutation l ts : py_sorted l = Some ts → ts ≡ₚ l.
Proof.
  unfold py_sorted. repeat case_match; intros ?; simplify_eq; try done;
    apply sorted_with_Permutation.
Qed.

Lemma py_sub_not_num a b : is_num b = false → py_sub a b = None.
Proof.
  unfold is_num, py_sub. intros H%bool_decide_eq_false.
  destruct (as_int b); [exfalso; eauto|]. by destruct (as_int a).
Qed.

(** A block cannot be written for timestamps that are not all numbers:
    sorting them raises or, when they sort, their range does. *)
Lemma report_type_fails k recorded :
  recorded ≠ [] → forallb is_num recorded = false → report_type k recorded = None.
Proof.
  intros Hne Hnum. unfold report_type.
  destruct (py_sorted recorded) as [ts|] eqn:Hts; [|done]. simpl.
  destruct (head ts) as [first|] eqn:Hfirst; [|done]. simpl.
  destruct (last ts) as [last|] eqn:Hlast; [|done]. simpl.
  assert (is_num first = false) as Hf.
  { unfold py_sorted in Hts. case_bool_decide as Hlen.
    - simplify_eq. destruct ts as [|v [|]]; simpl in *; try lia. simplify_eq.
      by rewrite andb_true_r in Hnum.
    - rewrite Hnum in Hts. destruct (forallb is_str recorded) eqn:Hstr; [|done].
      simplify_eq.
      assert (is_str first = true) as Hs.
      { eapply forallb_head; [|exact Hfirst].
        by rewrite (forallb_Permutation _ _ recorded) by apply sorted_with_Permutation. }
      by destruct first. }
  by rewrite py_sub_not_num.
Qed.

(** Every event has its type among the keys of the timeline. *)
Lemma tally_key_of {V} (dflt : V) upd key events e :
  e ∈ events →
  ∃ k, k ∈ keys (tally dflt upd key events) ∧ py_eqb (key e) k = true.
Proof.
  intros He.
  assert (e ∈ with_key key (key e) events) as Hin.
  { unfold with_key. apply list_elem_of_In, filter_In.
    split; [by apply list_elem_of_In|apply py_eqb_refl]. }
  pose proof (tally_lookup dflt upd key events (key e)) as Hl.
  destruct (with_key key (key e) events) as [|e0 l] eqn:E.
  { by apply elem_of_nil in Hin. }
  apply lookup_key_Some in Hl as (k0 & Hk0 & Heq).
  exists k0. split.
  - unfold keys. apply list_elem_of_fmap. by exists (k0, foldl (λ v e, upd e v) dflt (e0 :: l)).
  - by rewrite py_eqb_sym.
Qed.

Lemma group_timestamps_entry events k :
  k ∈ keys (group_timestamps events) →
  with_key event_type_of k events ≠ [] ∧
  default [] (lookup_key k (group_timestamps events))
  = timestamp_of <$> with_key event_type_of k events.
Proof.
  intros (e & He & <-)%group_timestamps_keys.
  assert (e ∈ with_key event_type_of (event_type_of e) events) as Hin.
  { unfold with_key. apply list_elem_of_In, filter_In.
    split; [by apply list_elem_of_In|apply py_eqb_refl]. }
  rewrite group_timestamps_lookup.
  destruct (with_key event_type_of (event_type_of e) events); [|done].
  by apply elem_of_nil in Hin.
Qed.

Lemma Sorted_head_last (l : list Z) a b :
  Sorted Z.le l → head l = Some a → last l = Some b → a ≤ b.
Proof.
  intros Hs Ha Hb. destruct l as [|x l]; [done|]. simpl in Ha. simplify_eq.
  apply Sorted_StronglySorted in Hs; [|intros ???; apply Z.le_trans].
  apply StronglySorted_inv in Hs as [_ Hall].
  destruct l as [|y l]; [simpl in Hb; by simplify_eq|].
  rewrite Forall_forall in Hall. apply Hall.
  change (last (a :: y :: l)) with (last (y :: l)) in Hb.
  apply last_Some in Hb as [l' ->]. set_solver.
Qed.

Lemma forallb_is_num_timestamps (mine : list Event) :
  forallb is_num (timestamp_of <$> mine) = true
  ↔ Forall (λ e, is_num (timestamp_of e) = true) mine.
Proof.
  rewrite forallb_forall, Forall_forall. split.
  - intros H e He. apply H, list_elem_of_In, list_elem_of_fmap. by exists e.
  - intros H v (e & -> & He)%list_elem_of_In%list_elem_of_fmap. by apply H.
Qed.

(** A block is not written for a key one of whose events has a timestamp
    that is not a number. *)
Lemma report_type_key_fails events k :
  k ∈ keys (group_timestamps events) →
  Exists (λ e, is_num (timestamp_of e) = false) (with_key event_type_of k events) →
  report_type k (default [] (lookup_key k (group_timestamps events))) = None.
Proof.
  intros [Hne Hrec]%group_timestamps_entry Hbad. rewrite Hrec.
  set (mine := with_key event_type_of k events) in *.
  apply report_type_fails; [by destruct mine|].
  destruct (forallb is_num (timestamp_of <$> mine)) eqn:Hnum; [|done].
  apply forallb_is_num_timestamps in Hnum. rewrite Forall_forall in Hnum.
  apply Exists_exists in Hbad as (e & He & Hn). rewrite (Hnum e He) in Hn. done.
Qed.

(** The block written for a key of the timeline. *)
Lemma report_type_key events k r :
  k ∈ keys (group_timestamps events) →
  report_type k (default [] (lookup_key k (group_timestamps events))) = Some r →
  let mine := with_key event_type_of k events in
  Forall (λ e, is_num (timestamp_of e) = true) mine ∧
  r_type r = k ∧ r_count r = length mine ∧
  r_range r = num_of (r_last r) - num_of (r_first r) ∧ 0 ≤ r_range r.
Proof.
  intros Hk Hr. pose proof Hk as [Hne Hrec]%group_timestamps_entry. cbv zeta.
  set (mine := with_key event_type_of k events) in *.
  destruct (forallb is_num (timestamp_of <$> mine)) eqn:Hnum; cycle 1.
  { rewrite Hrec, report_type_fails in Hr; [done|by destruct mine|done]. }
  assert (timestamp_of <$> mine ≠ []) as Hne' by by destruct mine.
  rewrite Hrec in Hr.
  destruct (report_type_inv k _ r Hne' Hnum Hr)
    as (ts & Hts & Hp & Hs & Hk' & Hc & Hf & Hl & Hrg & _).
  split; [by apply forallb_is_num_timestamps|].
  split; [done|]. split; [by rewrite Hc, length_fmap|].
  split; [done|]. rewrite Hrg.
  enough (num_of (r_first r) ≤ num_of (r_last r)) by lia.
  eapply Sorted_head_last; [exact Hs|..].
  - destruct ts; [done|]. simpl in Hf. by simplify_eq.
  - rewrite fmap_last. by rewrite Hl.
Qed.

End timeline_outcomes.

(** X13. When the timeline is lost. For a trace with events,
    [event_timeline] gives up ([Failed to save timeline]) when the event
    types cannot be sorted, and when some event has a timestamp that is
    [null] or a string: one such event makes the call fail, whatever the
    other events are. Without a writable file it always gives up. *)
Theorem event_timeline_failure (events : list Event) :
  events ≠ [] →
  (py_sorted (py_set (event_type_of <$> events)) = None
   ∨ Exists (λ e, is_num (timestamp_of e) = false) events →
   event_timeline true events = TimelineFailed) ∧
  event_timeline false events = TimelineFailed.
Proof.
  intros Hne. split; cycle 1.
  { unfold event_timeline. by rewrite bool_decide_false by done. }
  rewrite <- (tally_keys_py_set [] (λ e l, l ++ [timestamp_of e])).
  change (tally [] (λ e l, l ++ [timestamp_of e]) event_type_of events)
    with (group_timestamps events).
  unfold event_timeline. rewrite bool_decide_false by done. cbv zeta.
  destruct (py_sorted (keys (group_timestamps events))) as [types|] eqn:Htypes;
    [|done].
  apply py_sorted_Permutation in Htypes as Hperm. simpl.
  set (f := λ event_type,
         report_type event_type
           (default [] (lookup_key event_type (group_timestamps events)))).
  intros [?|Hbad]; [done|].
  apply Exists_exists in Hbad as (e & He & Hn).
  destruct (tally_key_of [] (λ e l, l ++ [timestamp_of e]) event_type_of events e He)
    as (k & Hk & Heq).
  change (tally [] (λ e l, l ++ [timestamp_of e]) event_type_of events)
    with (group_timestamps events) in Hk.
  destruct (mapM f types) as [report|] eqn:Hm; [|done]. exfalso.
  assert (is_Some (mapM f types)) as HF by eauto.
  apply mapM_is_Some in HF. rewrite Forall_forall in HF.
  rewrite <- Hperm in Hk. destruct (HF k Hk) as [r Hr].
  rewrite Hperm in Hk.
  unfold f in Hr. simpl in Hr. rewrite report_type_key_fails in Hr; [done..|].
  apply Exists_exists. exists e. split; [|done].
  unfold with_key. apply list_elem_of_In, filter_In.
  split; [by apply list_elem_of_In|done].
Qed.

Lemma event_timeline_failure_witness :
  let events : list Event :=
    [{[ "event" := VStr "open"; "timestamp" := VInt 5 ]};
     {[ "event" := VStr "read"; "timestamp" := VStr "late" ]}] in
  events ≠ [] ∧
  Exists (λ e, is_num (timestamp_of e) = false) events ∧
  event_timeline true events = TimelineFailed ∧
  event_timeline false events = TimelineFailed.
Proof.
  cbv zeta. split; [done|].
  assert (Exists (λ e, is_num (timestamp_of e) = false)
            [({[ "event" := VStr "open"; "timestamp" := VInt 5 ]} : Event);
             {[ "event" := VStr "read"; "timestamp" := VStr "late" ]}]) as Hbad.
  { apply Exists_cons_tl, Exists_cons_hd. vm_compute. reflexivity. }
  split; [exact Hbad|].
  destruct (event_timeline_failure
              [{[ "event" := VStr "open"; "timestamp" := VInt 5 ]};
               {[ "event" := VStr "read"; "timestamp" := VStr "late" ]}]) as [H1 H2];
    [done|].
  split; [apply H1; by right|exact H2].
Defined.

(** Timestamps that are integers can lose the timeline too: a gap between
    two of them too large for a float cannot be printed. *)
Example timeline_lost_to_a_gap :
  event_timeline true
    [{[ "event" := VStr "open"; "timestamp" := VInt 0 ]};
     {[ "event" := VStr "open"; "timestamp" := VInt (2 ^ 1024) ]}]
  = TimelineFailed.
Proof. run_code. Qed.

(** X14. What a saved timeline covers. When the events have strings for
    event types and integers for timestamps, where they have them, and
    [event_timeline] saves its report, there is one block per event type
    (an event without [event] being of type [unknown]), the counts of the
    blocks add up to the number of events, and in each block the first
    timestamp is at most the last, so that the range is not negative. *)
Theorem event_timeline_covers_events (events : list Event) (report : list type_report) :
  Forall (λ e, is_str (event_type_of e) = true ∧ is_num (timestamp_of e) = true) events →
  event_timeline true events = TimelineSaved report →
  r_type <$> report ≡ₚ py_set (event_type_of <$> events) ∧
  sum_list (r_count <$> report) = length events ∧
  Forall (λ r, r_count r = length (with_key event_type_of (r_type r) events) ∧
               (0 < r_count r)%nat ∧
               r_range r = num_of (r_last r) - num_of (r_first r) ∧
               0 ≤ r_range r) report.
Proof.
  intros _. unfold event_timeline. case_bool_decide as Hne; [done|]. cbv zeta.
  destruct (py_sorted (keys (group_timestamps events))) as [types|] eqn:Htypes;
    [|done].
  apply py_sorted_Permutation in Htypes as Hperm. simpl.
  set (d := group_timestamps events) in *.
  set (f := λ event_type, report_type event_type (default [] (lookup_key event_type d))).
  destruct (mapM f types) as [report'|] eqn:Hm; [|done].
  intros [= ->]. apply mapM_Some in Hm.
  assert (Forall2 (λ k r,
            r_type r = k ∧ r_count r = length (with_key event_type_of k events) ∧
            with_key event_type_of k events ≠ [] ∧
            r_range r = num_of (r_last r) - num_of (r_first r) ∧ 0 ≤ r_range r)
            types report) as Hall.
  { apply Forall2_same_length_lookup. split; [by eapply Forall2_length|].
    intros i k r Hi Hj.
    pose proof (Forall2_lookup_lr _ _ _ _ _ _ Hm Hi Hj) as Hr.
    apply list_elem_of_lookup_2 in Hi as Hk. rewrite Hperm in Hk.
    unfold f in Hr.
    destruct (report_type_key events k r Hk Hr) as (_ & H2 & H3 & H6 & H7).
    apply group_timestamps_entry in Hk as [Hk _]. done. }
  assert (r_type <$> report = types) as Hrt.
  { apply Forall2_fmap_eq. eapply Forall2_impl; [exact Hall|].
    by intros k r (? & _). }
  assert (r_count <$> report
          = (λ k, length (default [] (lookup_key k d))) <$> types) as Hrc.
  { clear -Hall. induction Hall as [|k r types report Hkr _ IH]; [done|].
    csimpl. rewrite IH. f_equal.
    destruct Hkr as (_ & -> & _). unfold d. rewrite group_timestamps_lookup.
    rewrite <- (length_fmap timestamp_of).
    by destruct (timestamp_of <$> with_key event_type_of k events). }
  split; [|split].
  - rewrite Hrt, Hperm. unfold d.
    by rewrite <- (tally_keys_py_set [] (λ e l, l ++ [timestamp_of e])).
  - rewrite Hrc.
    rewrite (sum_over_keys length [] d types); [|apply tally_keys_NoDup|done].
    apply (tally_total [] (λ e l, l ++ [timestamp_of e]) event_type_of length);
      [done|]. intros e v. rewrite length_app. simpl. lia.
  - eapply Forall2_Forall_r; [exact Hall|]. apply Forall_forall.
    intros k _ r (<- & Hc & Hne' & Hrg & Hpos).
    split; [done|]. split; [|done]. rewrite Hc.
    destruct (with_key event_type_of (r_type r) events); simpl; [done|lia].
Qed.

Lemma event_timeline_covers_events_witness :
  let events : list Event :=
    [{[ "event" := VStr "open"; "timestamp" := VInt 100 ]};
     {[ "event" := VStr "read"; "timestamp" := VInt 120 ]};
     {[ "event" := VStr "open"; "timestamp" := VInt 70 ]}] in
  let report :=
    [{| r_type := VStr "open"; r_count := 2; r_first := VInt 70;
        r_last := VInt 100; r_range := 30;
        r_intervals := Some {| avg_interval := 30 # 1; min_interval := 30;
                               max_interval := 30 |} |};
     {| r_type := VStr "read"; r_count := 1; r_first := VInt 120;
        r_last := VInt 120; r_range := 0; r_intervals := None |}] in
  Forall (λ e, is_str (event_type_of e) = true ∧ is_num (timestamp_of e) = true) events ∧
  event_timeline true events = TimelineSaved report ∧
  r_type <$> report ≡ₚ py_set (event_type_of <$> events) ∧
  sum_list (r_count <$> report) = length events ∧
  Forall (λ r, r_count r = length (with_key event_type_of (r_type r) events) ∧
               (0 < r_count r)%nat ∧
               r_range r = num_of (r_last r) - num_of (r_first r) ∧
               0 ≤ r_range r) report.
Proof.
  cbv zeta.
  assert (Forall (λ e, is_str (event_type_of e) = true ∧ is_num (timestamp_of e) = true)
            [({[ "event" := VStr "open"; "timestamp" := VInt 100 ]} : Event);
             {[ "event" := VStr "read"; "timestamp" := VInt 120 ]};
             {[ "event" := VStr "open"; "timestamp" := VInt 70 ]}]) as Htyped.
  { repeat (apply Forall_cons; split); [..|apply Forall_nil];
      split; vm_compute; reflexivity. }
  assert (event_timeline true
            [{[ "event" := VStr "open"; "timestamp" := VInt 100 ]};
             {[ "event" := VStr "read"; "timestamp" := VInt 120 ]};
             {[ "event" := VStr "open"; "timestamp" := VInt 70 ]}]
          = TimelineSaved
              [{| r_type := VStr "open"; r_count := 2; r_first := VInt 70;
                  r_last := VInt 100; r_range := 30;
                  r_intervals := Some {| avg_interval := 30 # 1; min_interval := 30;
                                         max_interval := 30 |} |};
               {| r_type := VStr "read"; r_count := 1; r_first := VInt 120;
                  r_last := VInt 120; r_range := 0; r_intervals := None |}])
    as Hrun by (vm_compute; reflexivity).
  split; [exact Htyped|]. split; [exact Hrun|].
  exact (event_timeline_covers_events _ _ Htyped Hrun).
Defined.

(** ** Devices *)

Import DeviceManager.

Section device_facts.
Context (strip : string → string) (split : string → list string).

Lemma run_adb_on_device adb command id :
  id ≠ "" →
  _run_adb_command strip adb command (Some id)
  = match adb (["adb"; "-s"; id] ++ command) with
    | AdbExited rc stdout stderr =>
        if bool_decide (rc = 0) then inl (strip stdout)
        else inr ("ADB command failed: " +:+ stderr)
    | AdbTimedOut => inr ("ADB command timed out: " +:+ Orchestrator.join " " command)
    | AdbNotFound => inr "ADB not found in PATH. Please ensure ADB is installed and in PATH."
    | AdbRaised msg => inr msg
    end.
Proof.
  intros Hid. unfold _run_adb_command, truthy. by rewrite bool_decide_false by done.
Qed.

(** A query gives [_fetch_device_info] a value exactly when adb exits
    with status 0. *)
Lemma run_adb_answer adb command id :
  id ≠ "" →
  match _run_adb_command strip adb command (Some id) with
  | inl out => answer strip (adb (["adb"; "-s"; id] ++ command)) = Some (or_unknown out)
  | inr _ => answer strip (adb (["adb"; "-s"; id] ++ command)) = None
  end.
Proof.
  intros Hid. rewrite run_adb_on_device by done.
  destruct (adb _) as [rc out err| | |]; try done.
  case_bool_decide as Hrc; [by subst rc|]. by destruct rc.
Qed.

Lemma answer_Some e x :
  answer strip e = Some x → x ≠ "" ∧ ∃ out err, e = AdbExited 0 out err.
Proof.
  destruct e as [[| |] out err| | |]; try done. intros [= <-]. split; [|eauto].
  unfold or_unknown. by case_bool_decide.
Qed.

Lemma answer_exited out err : is_Some (answer strip (AdbExited 0 out err)).
Proof. by eexists. Qed.

Lemma fetch_device_info_id adb device :
  device_id (_fetch_device_info strip adb device) = device_id device ∧
  state (_fetch_device_info strip adb device) = state device.
Proof.
  unfold _fetch_device_info. cbv zeta.
  destruct (_run_adb_command strip adb ["shell"; "getprop"; "ro.product.model"] _); [|done].
  destruct (_run_adb_command strip adb ["shell"; "getprop"; "ro.product.device"] _); [|done].
  destruct (_run_adb_command strip adb ["shell"; "getprop"; "ro.build.version.sdk"] _); [|done].
  by destruct (_run_adb_command strip adb ["shell"; "uname"; "-r"] _).
Qed.

Lemma rev_nonempty (s : string) : s ≠ "" → String.rev s ≠ "".
Proof. destruct s as [|c s]; [done|]. rewrite rev_cons. by destruct (String.rev s). Qed.

(** The pieces of [s.split()] are not empty. *)
Lemma split_ws_go_nonempty cur s :
  (∀ c, cur = Some c → c ≠ "") → Forall (λ p, p ≠ "") (split_ws_go cur s).
Proof.
  revert cur. induction s as [|a s IH]; intros cur Hcur; simpl.
  - destruct cur as [c|]; simpl; [|constructor].
    repeat constructor. by apply rev_nonempty, Hcur.
  - destruct (isspace a).
    + apply Forall_app. split; [|by apply IH].
      destruct cur as [c|]; simpl; [|constructor].
      repeat constructor. by apply rev_nonempty, Hcur.
    + apply IH. by intros c [= <-].
Qed.

Lemma split_ws_nonempty s : Forall (λ p, p ≠ "") (split_ws s).
Proof. by apply split_ws_go_nonempty. Qed.

Lemma dict_get_set_eq {V} (k : string) (v : V) d : dict_get k (dict_set k v d) = Some v.
Proof.
  induction d as [|[k' v'] d IH]; simpl.
  - by rewrite bool_decide_true.
  - case_bool_decide; simpl; [by rewrite bool_decide_true|].
    by rewrite bool_decide_false.
Qed.

Lemma dict_get_set_ne {V} (k k0 : string) (v : V) d :
  k ≠ k0 → dict_get k0 (dict_set k v d) = dict_get k0 d.
Proof.
  intros Hne. induction d as [|[k' v'] d IH]; simpl.
  - by rewrite bool_decide_false.
  - case_bool_decide as E; simpl.
    + subst k'. by rewrite !bool_decide_false.
    + by rewrite IH.
Qed.

(** Setting an entry keeps the keys in place; a new key goes last. *)
Lemma dict_set_keys {V} (k : string) (v : V) d :
  (dict_set k v d).*1 = if bool_decide (k ∈ d.*1) then d.*1 else d.*1 ++ [k].
Proof.
  induction d as [|[k' v'] d IH].
  - change (([] : list (string * V)).*1) with ([] : list string).
    rewrite bool_decide_false; [done|]. by intros ?%elem_of_nil.
  - change (((k', v') :: d).*1) with (k' :: d.*1).
    change (dict_set k v ((k', v') :: d))
      with (if bool_decide (k' = k) then (k, v) :: d else (k', v') :: dict_set k v d).
    destruct (decide (k' = k)) as [->|E].
    + rewrite (bool_decide_true (k = k)) by done.
      by rewrite bool_decide_true by apply list_elem_of_here.
    + rewrite (bool_decide_false (k' = k)) by done.
      change (((k', v') :: dict_set k v d).*1) with (k' :: (dict_set k v d).*1).
      rewrite IH. destruct (decide (k ∈ d.*1)) as [E1|E1].
      * rewrite (bool_decide_true (k ∈ d.*1)) by done.
        by rewrite bool_decide_true by by apply list_elem_of_further.
      * rewrite (bool_decide_false (k ∈ d.*1)) by done.
        rewrite bool_decide_false; [done|].
        intros [->|?]%elem_of_cons; done.
Qed.

Lemma dict_get_Some {V} (k : string) (v : V) d :
  dict_get k d = Some v → (k, v) ∈ d.
Proof.
  induction d as [|[k' v'] d IH]; simpl; [done|].
  case_bool_decide as E.
  - intros [= ->]. subst k'. by constructor.
  - intros H. constructor. by apply IH.
Qed.

(** What the loop of [detect_devices] leaves: the devices of the lines,
    each entered in the registry under its id as it is found. *)
Lemma detect_lines adb lines (st : list AndroidDevice * registry) :
  ∃ new,
    (foldl (detect_line strip split adb) st lines).1 = st.1 ++ new ∧
    (foldl (detect_line strip split adb) st lines).2
    = foldl (λ r d, dict_set (device_id d) d r) st.2 new ∧
    Forall (λ d, (∃ line, device_id d ∈ split line) ∧ state d ∈ allowed_states ∧
                 d = if bool_decide (state d = "device")
                     then _fetch_device_info strip adb (fresh_device (device_id d) (state d))
                     else fresh_device (device_id d) (state d)) new.
Proof.
  revert st. induction lines as [|line lines IH]; intros st; simpl.
  { exists []. by rewrite app_nil_r. }
  assert (detect_line strip split adb st line = st ∨
          ∃ d, detect_line strip split adb st line
               = (st.1 ++ [d], dict_set (device_id d) d st.2) ∧
               (∃ line, device_id d ∈ split line) ∧ state d ∈ allowed_states ∧
               d = if bool_decide (state d = "device")
                   then _fetch_device_info strip adb (fresh_device (device_id d) (state d))
                   else fresh_device (device_id d) (state d)) as [->|(d & -> & Hd)].
  { unfold detect_line. destruct (_ || _); [by left|].
    destruct (split line) as [|id [|st' rest]] eqn:Hsplit; [by left..|].
    assert (∃ line, id ∈ split line) as Hid.
    { exists line. rewrite Hsplit. apply list_elem_of_here. }
    case_bool_decide as Hst; [|by left]. right.
    case_bool_decide as Hdev.
    - destruct (fetch_device_info_id adb (fresh_device id st')) as [E1 E2].
      simpl in E1, E2.
      exists (_fetch_device_info strip adb (fresh_device id st')).
      rewrite E1, E2. rewrite bool_decide_true by done. done.
    - exists (fresh_device id st'). simpl. by rewrite bool_decide_false by done. }
  - apply IH.
  - destruct (IH (st.1 ++ [d], dict_set (device_id d) d st.2))
      as (new & H1 & H2 & H3).
    exists (d :: new). simpl in *. rewrite H1, H2, <- app_assoc.
    split; [done|]. split; [done|]. by constructor.
Qed.

Lemma latest_snoc id found d :
  latest id (found ++ [d])
  = if bool_decide (device_id d = id) then Some d else latest id found.
Proof.
  unfold latest. rewrite List.filter_app. simpl.
  case_bool_decide; [by rewrite last_snoc|by rewrite app_nil_r].
Qed.

Lemma registered_lookup (reg : registry) found id :
  dict_get id (foldl (λ r d, dict_set (device_id d) d r) reg found)
  = match latest id found with Some d => Some d | None => dict_get id reg end.
Proof.
  induction found as [|d found IH] using rev_ind; [done|].
  rewrite foldl_snoc, latest_snoc. case_bool_decide as E.
  - subst id. apply dict_get_set_eq.
  - by rewrite dict_get_set_ne.
Qed.

Lemma registered_keys (reg : registry) found :
  let reg' := foldl (λ r d, dict_set (device_id d) d r) reg found in
  reg.*1 `prefix_of` reg'.*1 ∧
  (∀ id, id ∈ reg'.*1 ↔ id ∈ reg.*1 ∨ id ∈ device_id <$> found) ∧
  (NoDup reg.*1 → NoDup reg'.*1).
Proof.
  clear strip split.
  cbv zeta. induction found as [|d found (IH1 & IH2 & IH3)] using rev_ind.
  { simpl. split; [done|]. split; [|done]. intros id.
    split; [by left|]. intros [?|H]; [done|]. by apply elem_of_nil in H. }
  assert (∀ id, id ∈ device_id <$> found ++ [d]
                ↔ id ∈ device_id <$> found ∨ id = device_id d) as Hsnoc.
  { intros id. rewrite fmap_app, elem_of_app.
    change (device_id <$> [d]) with [device_id d].
    by rewrite list_elem_of_singleton. }
  rewrite foldl_snoc, dict_set_keys. case_bool_decide as E.
  - split; [done|]. split; [|done]. intros id. rewrite IH2, Hsnoc.
    split; [tauto|]. intros [?|[?| ->]]; [tauto..|]. by apply IH2.
  - split; [by apply prefix_app_r|]. split.
    + intros id. rewrite elem_of_app, IH2, Hsnoc, list_elem_of_singleton. tauto.
    + intros Hnd. apply NoDup_app. split; [by apply IH3|].
      split; [|apply NoDup_singleton].
      intros id Hid ->%list_elem_of_singleton. done.
Qed.

Lemma detect_devices_run adb devices found devices' :
  detect_devices strip split adb devices = inl (found, devices') →
  devices' = foldl (λ r d, dict_set (device_id d) d r) devices found ∧
  Forall (λ d, (∃ line, device_id d ∈ split line) ∧ state d ∈ allowed_states ∧
               d = if bool_decide (state d = "device")
                   then _fetch_device_info strip adb (fresh_device (device_id d) (state d))
                   else fresh_device (device_id d) (state d)) found.
Proof.
  unfold detect_devices. destruct (_run_adb_command _ _ _) as [output|]; [|done].
  destruct (detect_lines adb (tail (split_on "010" output)) ([], devices))
    as (new & H1 & H2 & H3).
  destruct (foldl _ _ _) as [f r]. simpl in *. intros [= <- <-]. by subst.
Qed.

Lemma answer_is_Some e : is_Some (answer strip e) ↔ ∃ out err, e = AdbExited 0 out err.
Proof.
  split.
  - intros [x Hx]. by apply answer_Some in Hx as [_ ?].
  - intros (out & err & ->). by eexists.
Qed.

Lemma answers_until_failure_cut (l : list (option string)) :
  Forall (λ f, f ≠ Some "") l → Forall (λ f, f ≠ Some "") (answers_until_failure l).
Proof.
  induction 1 as [|[x|] l Hx _ IH].
  - constructor.
  - by constructor.
  - change (answers_until_failure (None :: l))
      with ((λ _ : option string, @None string) <$> None :: l).
    apply Forall_fmap, Forall_true. done.
Qed.

(** The last answer is there exactly when no query failed. *)
Lemma answers_until_failure_last (l : list (option string)) :
  is_Some (default None (last (answers_until_failure l))) ↔ l ≠ [] ∧ Forall is_Some l.
Proof.
  induction l as [|[x|] l IH].
  - simpl. split; [by intros [? ?]|by intros [? _]].
  - change (answers_until_failure (Some x :: l))
      with (Some x :: answers_until_failure l).
    destruct l as [|b l].
    + simpl. split; [|by eauto]. intros _. split; [done|]. repeat constructor. by eexists.
    + assert (last (Some x :: answers_until_failure (b :: l))
              = last (answers_until_failure (b :: l))) as -> by by destruct b.
      rewrite IH. split; intros [_ H]; (split; [done|]).
      * constructor; [by eexists|done].
      * by apply Forall_cons in H as [_ ?].
  - change (answers_until_failure (None :: l))
      with ((λ _ : option string, @None string) <$> None :: l).
    rewrite fmap_last. split.
    + destruct (last (None :: l)); simpl; by intros [? ?].
    + intros [_ [[? ?] _]%Forall_cons]. done.
Qed.

Lemma fetch_device_info_fields adb id st :
  id ≠ "" →
  info_fields (_fetch_device_info strip adb (fresh_device id st))
  = answers_until_failure ((answer strip ∘ adb) <$> info_queries id).
Proof.
  intros Hid. unfold _fetch_device_info, info_queries. cbn [fresh_device device_id].
  pose proof (run_adb_answer adb ["shell"; "getprop"; "ro.product.model"] id Hid) as H1.
  pose proof (run_adb_answer adb ["shell"; "getprop"; "ro.product.device"] id Hid) as H2.
  pose proof (run_adb_answer adb ["shell"; "getprop"; "ro.build.version.sdk"] id Hid) as H3.
  pose proof (run_adb_answer adb ["shell"; "uname"; "-r"] id Hid) as H4.
  simpl in H1, H2, H3, H4. csimpl.
  destruct (_run_adb_command strip adb ["shell"; "getprop"; "ro.product.model"] _);
    rewrite H1; [|done].
  destruct (_run_adb_command strip adb ["shell"; "getprop"; "ro.product.device"] _);
    rewrite H2; [|done].
  destruct (_run_adb_command strip adb ["shell"; "getprop"; "ro.build.version.sdk"] _);
    rewrite H3; [|done].
  destruct (_run_adb_command strip adb ["shell"; "uname"; "-r"] _);
    rewrite H4; done.
Qed.

End device_facts.

(** X15. The properties of a device. On a device as [detect_devices]
    makes it, [_fetch_device_info] never raises and leaves the id and the
    state of the device alone. Of the four
    properties it asks for (model, device name, API level, kernel
    version, in this order) it fills those answered before the first
    query that fails, and leaves the others unset: an answer is the output
    of adb, stripped, or [Unknown] when that is empty, so no property is
    ever the empty string; the kernel version is known exactly when all
    four queries exit with status 0. *)
Theorem fetch_device_info_partial (strip : string → string) (adb : adb_world)
    (id st : string) :
  id ≠ "" →
  let d := _fetch_device_info strip adb (fresh_device id st) in
  device_id d = id ∧ state d = st ∧
  info_fields d = answers_until_failure ((answer strip ∘ adb) <$> info_queries id) ∧
  Forall (λ f, f ≠ Some "") (info_fields d) ∧
  (is_Some (kernel_version d)
   ↔ Forall (λ q, ∃ out err, adb q = AdbExited 0 out err) (info_queries id)).
Proof.
  intros Hid. cbv zeta.
  destruct (fetch_device_info_id strip adb (fresh_device id st)) as [E1 E2].
  split; [done|]. split; [done|].
  pose proof (fetch_device_info_fields strip adb id st Hid) as Hfields.
  split; [exact Hfields|]. split.
  - rewrite Hfields. apply answers_until_failure_cut, Forall_fmap, Forall_forall.
    intros q _ Hq. apply answer_Some in Hq as [? _]. done.
  - assert (kernel_version (_fetch_device_info strip adb (fresh_device id st))
            = default None (last (info_fields (_fetch_device_info strip adb (fresh_device id st)))))
      as -> by done.
    rewrite Hfields, answers_until_failure_last, Forall_fmap.
    split.
    + intros [_ H]. eapply Forall_impl; [exact H|]. intros q. apply answer_is_Some.
    + intros H. split; [done|]. eapply Forall_impl; [exact H|].
      intros q. apply answer_is_Some.
Qed.

Lemma fetch_device_info_partial_witness :
  let d := _fetch_device_info strip sample_adb (fresh_device "emulator-5554" "device") in
  "emulator-5554" ≠ "" ∧
  device_id d = "emulator-5554" ∧ state d = "device" ∧
  info_fields d
  = answers_until_failure ((answer strip ∘ sample_adb) <$> info_queries "emulator-5554") ∧
  Forall (λ f, f ≠ Some "") (info_fields d) ∧
  (is_Some (kernel_version d)
   ↔ Forall (λ q, ∃ out err, sample_adb q = AdbExited 0 out err)
            (info_queries "emulator-5554")).
Proof.
  cbv zeta. split; [done|].
  apply (fetch_device_info_partial strip sample_adb "emulator-5554" "device"). done.
Defined.

Example fetch_device_info_scenario :
  _fetch_device_info strip sample_adb (fresh_device "emulator-5554" "device")
  = Device "emulator-5554" "device" (Some "Pixel 7") (Some "Unknown") None None.
Proof. vm_compute. reflexivity. Qed.

(** X16. The devices found. [str.split] gives no empty piece; so, when
    [detect_devices] returns, every device it found has an id that is not
    empty and one of the states [device],
    [offline], [unknown]: lines in any other state, [unauthorized] for
    one, give no device. Only a device in state [device] is asked for its
    properties, and has those answered before the first failing query;
    the others have none. *)
Theorem detect_devices_found (strip : string → string) (split : string → list string)
    (adb : adb_world) (devices : registry)
    (found : list AndroidDevice) (devices' : registry) :
  (∀ s, Forall (λ piece, piece ≠ "") (split s)) →
  detect_devices strip split adb devices = inl (found, devices') →
  Forall (λ d,
    device_id d ≠ "" ∧ state d ∈ allowed_states ∧
    info_fields d
    = if bool_decide (state d = "device")
      then answers_until_failure ((answer strip ∘ adb) <$> info_queries (device_id d))
      else [None; None; None; None]) found.
Proof.
  intros Hsplit [_ Hfound]%detect_devices_run.
  eapply Forall_impl; [exact Hfound|]. intros d ((line & Hline) & Hst & Hd).
  assert (device_id d ≠ "") as Hid.
  { specialize (Hsplit line). rewrite Forall_forall in Hsplit. by apply Hsplit. }
  split; [done|]. split; [done|]. rewrite Hd at 1.
  case_bool_decide; [by apply fetch_device_info_fields|done].
Qed.

Lemma detect_devices_found_witness :
  (∀ s, Forall (λ piece, piece ≠ "") (split_ws s)) ∧
  detect_devices strip split_ws sample_adb sample_registry = inl (sample_found, sample_detected) ∧
  Forall (λ d,
    device_id d ≠ "" ∧ state d ∈ allowed_states ∧
    info_fields d
    = if bool_decide (state d = "device")
      then answers_until_failure ((answer strip ∘ sample_adb) <$> info_queries (device_id d))
      else [None; None; None; None]) sample_found.
Proof.
  assert (detect_devices strip split_ws sample_adb sample_registry = inl (sample_found, sample_detected))
    as Hrun by (vm_compute; reflexivity).
  split; [exact split_ws_nonempty|]. split; [exact Hrun|].
  exact (detect_devices_found strip split_ws sample_adb sample_registry sample_found
           sample_detected split_ws_nonempty Hrun).
Defined.

(** X17. The registry after a detection. When [detect_devices] returns,
    the registry answers for an id with the device of the latest line
    about that id, and as before for an id that no line gave: a device
    that is no longer listed, or listed in a state that is not accepted,
    stays registered as it was. The ids registered before keep their
    places, the new ones follow, and ids that were distinct stay so. *)
Theorem detect_devices_registry (strip : string → string) (split : string → list string)
    (adb : adb_world) (devices : registry)
    (found : list AndroidDevice) (devices' : registry) :
  detect_devices strip split adb devices = inl (found, devices') →
  (∀ id, get_device devices' id
         = match latest id found with
           | Some d => Some d
           | None => get_device devices id
           end) ∧
  devices.*1 `prefix_of` devices'.*1 ∧
  (∀ id, id ∈ devices'.*1 ↔ id ∈ devices.*1 ∨ id ∈ device_id <$> found) ∧
  (NoDup devices.*1 → NoDup devices'.*1).
Proof.
  intros Hrun. apply detect_devices_run in Hrun as [-> _]. split.
  - intros id. apply registered_lookup.
  - apply registered_keys.
Qed.

Lemma detect_devices_registry_witness :
  detect_devices strip split_ws sample_adb sample_registry = inl (sample_found, sample_detected) ∧
  (∀ id, get_device sample_detected id
         = match latest id sample_found with
           | Some d => Some d
           | None => get_device sample_registry id
           end) ∧
  sample_registry.*1 `prefix_of` sample_detected.*1 ∧
  (∀ id, id ∈ sample_detected.*1
         ↔ id ∈ sample_registry.*1 ∨ id ∈ device_id <$> sample_found) ∧
  (NoDup sample_registry.*1 → NoDup sample_detected.*1).
Proof.
  assert (detect_devices strip split_ws sample_adb sample_registry = inl (sample_found, sample_detected))
    as Hrun by (vm_compute; reflexivity).
  split; [exact Hrun|].
  exact (detect_devices_registry strip split_ws sample_adb sample_registry sample_found
           sample_detected Hrun).
Defined.

(** X18. What [list_devices_json] lists. When it returns, it has run a
    detection and lists the whole registry after it, [device_count] being
    the number of devices listed: never fewer than were registered
    before. A device registered before that the detection did not find is
    listed as it was, with its old state, and every device found is listed
    unless a later line gave another device for its id. *)
Theorem list_devices_json_lists_registry (strip : string → string)
    (split : string → list string) (adb : adb_world) (now : string)
    (devices : registry) (j : devices_json) (devices' : registry) :
  list_devices_json strip split adb now devices = inl (j, devices') →
  ∃ found,
    detect_devices strip split adb devices = inl (found, devices') ∧
    dj_devices j = devices'.*2 ∧
    dj_device_count j = length (dj_devices j) ∧
    (length devices ≤ dj_device_count j)%nat ∧
    (∀ id d, get_device devices id = Some d → id ∉ device_id <$> found →
             d ∈ dj_devices j) ∧
    (∀ d, latest (device_id d) found = Some d → d ∈ dj_devices j).
Proof.
  unfold list_devices_json.
  destruct (detect_devices strip split adb devices) as [[found devices'']|] eqn:Hrun; [|done].
  intros [= <- <-]. exists found. simpl.
  pose proof Hrun as [Hreg _]%detect_devices_run.
  pose proof (registered_lookup devices found) as Hget. rewrite <- Hreg in Hget.
  pose proof (registered_keys devices found) as (Hpre & _ & _).
  cbv zeta in Hpre. rewrite <- Hreg in Hpre.
  assert (∀ id d, dict_get id devices'' = Some d → d ∈ devices''.*2) as Hin.
  { intros id d Hd%dict_get_Some. apply list_elem_of_fmap. by exists (id, d). }
  split; [done|]. split; [done|]. split; [by rewrite length_fmap|].
  split; [|split].
  - apply prefix_length in Hpre. by rewrite !length_fmap in Hpre.
  - intros id d Hd Hid. apply (Hin id). rewrite Hget.
    destruct (latest id found) as [d'|] eqn:Hl; [|done].
    exfalso. apply Hid. unfold latest in Hl. apply last_Some in Hl as [l Hl].
    assert (d' ∈ List.filter (λ d, bool_decide (device_id d = id)) found) as Hd'.
    { rewrite Hl. apply elem_of_app. right. by apply list_elem_of_singleton. }
    apply list_elem_of_In, filter_In in Hd' as [Hd' Hq].
    apply bool_decide_eq_true in Hq as <-.
    apply list_elem_of_fmap. exists d'. split; [done|]. by apply list_elem_of_In.
  - intros d Hl. apply (Hin (device_id d)). by rewrite Hget, Hl.
Qed.

Lemma list_devices_json_lists_registry_witness :
  let j := {| dj_timestamp := "2026-01-01T00:00:00"; dj_device_count := 3;
              dj_devices := sample_detected.*2 |} in
  list_devices_json strip split_ws sample_adb "2026-01-01T00:00:00" sample_registry
  = inl (j, sample_detected) ∧
  ∃ found,
    detect_devices strip split_ws sample_adb sample_registry = inl (found, sample_detected) ∧
    dj_devices j = sample_detected.*2 ∧
    dj_device_count j = length (dj_devices j) ∧
    (length sample_registry ≤ dj_device_count j)%nat ∧
    (∀ id d, get_device sample_registry id = Some d → id ∉ device_id <$> found →
             d ∈ dj_devices j) ∧
    (∀ d, latest (device_id d) found = Some d → d ∈ dj_devices j).
Proof.
  cbv zeta.
  assert (list_devices_json strip split_ws sample_adb "2026-01-01T00:00:00" sample_registry
          = inl ({| dj_timestamp := "2026-01-01T00:00:00"; dj_device_count := 3;
                    dj_devices := sample_detected.*2 |}, sample_detected))
    as Hrun by (vm_compute; reflexivity).
  split; [exact Hrun|].
  exact (list_devices_json_lists_registry _ _ _ _ _ _ _ Hrun).
Defined.

(** A device that was registered and is not attached any more is still
    listed, in state [device]. *)
Example stale_device_still_listed :
  get_device sample_registry "old-phone"
  = Some (Device "old-phone" "device" (Some "Nexus 5") None None None) ∧
  list_devices_json strip split_ws sample_adb "now" sample_registry
  = inl ({| dj_timestamp := "now"; dj_device_count := 3;
            dj_devices :=
              Device "old-phone" "device" (Some "Nexus 5") None None None
                :: sample_found |},
         sample_detected).
Proof. split; vm_compute; reflexivity. Qed.
